(** * Episode rollout of [scripts/run_mujoco_eval.py]

    A shallow embedding of the evaluation script's two functions,
    [_obs_to_batched] and [run_episode] (with its local closure
    [_resize_top]), together with the properties of the rollout protocol.

    The script talks to five collaborators that live outside the repository:
    numpy ([np.asarray], indexing), jax ([tree_map], [random.PRNGKey],
    [random.split]), OpenCV ([cv2.resize]), imageio ([mimsave]) and the
    gymnasium environment and the agent it is handed.  Their data is modelled
    concretely (arrays, nested observations, exceptions); their behaviour is
    taken as parameters of the development, so every statement below holds for
    whatever these collaborators compute. *)

From Stdlib Require Import ZArith List Lia PrimFloat.
From Equations Require Import Equations.
From Equations.Prop Require Import Logic.
From stdpp Require Import gmap strings list sorting.

Set Warnings "-register-all".

(** ** Exceptions and fallible results *)

(** An instance of Python's [Exception], identified by its class name.  Every
    [try ... except Exception] of the script catches all of them. *)
Inductive exn : Type :=
| Exc (cls : string).

Inductive res (A : Type) : Type :=
| Ok (a : A)
| Raise (e : exn).
Arguments Ok {A} a.
Arguments Raise {A} e.

Definition res_map {A B : Type} (f : A -> B) (r : res A) : res B :=
  match r with
  | Ok a => Ok (f a)
  | Raise e => Raise e
  end.

Definition res_bind {A B : Type} (r : res A) (k : A -> res B) : res B :=
  match r with
  | Ok a => k a
  | Raise e => Raise e
  end.

Definition res_get {A : Type} (r : res A) : option A :=
  match r with
  | Ok a => Some a
  | Raise _ => None
  end.

(** Evaluates the computations of a list from left to right; the first
    exception wins. *)
Fixpoint sequence {A : Type} (l : list (res A)) : res (list A) :=
  match l with
  | [] => Ok []
  | r :: rs =>
      res_bind r (fun a => res_map (cons a) (sequence rs))
  end.

(** ** numpy arrays *)

Inductive dtype : Type :=
| Float64 | Float32 | Int64 | UInt8 | Bool8 | Unicode | Object.

Definition numeric (d : dtype) : bool :=
  match d with
  | Unicode | Object => false
  | _ => true
  end.

(** An [np.ndarray]: element type, shape, and the elements in row-major order,
    each as its raw bit pattern. *)
Record ndarray : Type := NdArray {
  arr_dtype : dtype;
  shape : list nat;
  buffer : list Z
}.

Definition ndim (a : ndarray) : nat := length (shape a).

Definition numel (sh : list nat) : nat := foldr Nat.mul 1 sh.

Definition well_formed (a : ndarray) : Prop :=
  length (buffer a) = numel (shape a).

(** [x[None, ...]]: a view with a new leading axis of size one. *)
Definition expand_leading (a : ndarray) : ndarray :=
  NdArray (arr_dtype a) (1 :: shape a) (buffer a).

(** [a[0]]: the first slice along the leading axis; an [IndexError] on a
    zero-dimensional array or an empty leading axis. *)
Definition index0 (a : ndarray) : res ndarray :=
  match shape a with
  | [] => Raise (Exc "IndexError")
  | O :: _ => Raise (Exc "IndexError")
  | S _ :: rest => Ok (NdArray (arr_dtype a) rest (take (numel rest) (buffer a)))
  end.

(** [a.shape[:2]]: the rows and columns of an image. *)
Definition resolution (a : ndarray) : list Z := Z.of_nat <$> take 2 (shape a).

(** Taking the first slice of a batch of one gives the array back. *)
Lemma index0_expand_leading (a : ndarray) :
  well_formed a -> index0 (expand_leading a) = Ok a.
Proof.
  unfold well_formed, index0, expand_leading. intros Hwf. cbn.
  rewrite <- Hwf, firstn_all. destruct a; reflexivity.
Qed.

(** ** Python values that occur as observations

    The containers are the ones jax treats as pytree nodes ([None], lists,
    tuples, dicts with string keys); everything else is a leaf. *)
Inductive pyval : Type :=
| PyNone
| PyInt (z : Z)
| PyStr (s : string)
| PyObj (id : nat)
| PyArr (a : ndarray)
| PySeq (is_tuple : bool) (l : list pyval)
| PyDict (m : gmap string pyval).

Definition is_leaf (v : pyval) : bool :=
  match v with
  | PyNone | PySeq _ _ | PyDict _ => false
  | _ => true
  end.

(** [leaf_of ob x]: [x] is one of the leaves of the pytree [ob]. *)
Inductive leaf_of : pyval -> pyval -> Prop :=
| leaf_here x : is_leaf x = true -> leaf_of x x
| leaf_seq t l v x : In v l -> leaf_of v x -> leaf_of (PySeq t l) x
| leaf_dict (m : gmap string pyval) k v x :
    m !! k = Some v -> leaf_of v x -> leaf_of (PyDict m) x.

(** ** [jax.tree_util.tree_map] *)

Definition key_le (p q : string * res pyval) : Prop :=
  String.leb p.1 q.1 = true.

#[local] Instance key_le_dec p q : Decision (key_le p q).
Proof. unfold key_le. apply _. Defined.

(** The first exception among the entries of a list. *)
Fixpoint first_raise (l : list (string * res pyval)) : option exn :=
  match l with
  | [] => None
  | (_, Raise e) :: _ => Some e
  | (_, Ok _) :: rest => first_raise rest
  end.

(** A dict is flattened with its keys sorted, so when several children fail
    the exception of the child with the least key is the one raised. *)
Definition dict_collect (m : gmap string (res pyval)) : res (gmap string pyval) :=
  match first_raise (merge_sort key_le (map_to_list m)) with
  | Some e => Raise e
  | None => Ok (omap res_get m)
  end.

Fixpoint tree_map (f : pyval -> res pyval) (v : pyval) : res pyval :=
  match v with
  | PyNone => Ok PyNone
  | PySeq t l => res_map (PySeq t) (sequence (map (tree_map f) l))
  | PyDict m => res_map PyDict (dict_collect (tree_map f <$> m))
  | leaf => f leaf
  end.

(** ** The observation adapter *)

Inductive interpolation : Type :=
| INTER_NEAREST | INTER_LINEAR | INTER_AREA.

(** [cv2.resize(img, (W, H), interpolation=...)]. *)
Definition cv2_resize_t : Type :=
  ndarray -> Z * Z -> interpolation -> res ndarray.

Section Adapter.

(** [np.asarray] on an object that is not already an array: numpy's
    conversion, which may raise. *)
Variable np_coerce : pyval -> res ndarray.

(** The [cv2] module, when [import cv2] succeeds. *)
Variable cv2 : option cv2_resize_t.

Definition asarray (x : pyval) : res ndarray :=
  match x with
  | PyArr a => Ok a
  | _ => np_coerce x
  end.

Definition batch_leaf (x : pyval) : res pyval :=
  res_map (fun a => PyArr (expand_leading a)) (asarray x).

Definition _obs_to_batched (ob : pyval) : res pyval :=
  tree_map batch_leaf ob.

(** [img.shape[:2] != (H, W)]. *)
Definition resolution_differs (a : ndarray) (H W : Z) : bool :=
  bool_decide (resolution a ≠ [H; W]).

(** The closure [_resize_top] of [run_episode], with the [img_hw] it
    captures.  The whole body sits in [try ... except Exception: pass], so
    a failed import, a failed lookup or a failed resize all fall through to
    [return ob].  When ["pixels"] is not a dict, either the membership test
    is false or the subscript [["top"]] raises, which is swallowed too. *)
Definition _resize_top (img_hw : Z * Z) (ob : pyval) : pyval :=
  match cv2 with
  | None => ob
  | Some resize =>
      match ob with
      | PyDict m =>
          match m !! "pixels" with
          | Some (PyDict px) =>
              match px !! "top" with
              | Some img =>
                  let '(H, W) := img_hw in
                  match img with
                  | PyArr a =>
                      if (ndim a =? 3) && resolution_differs a H W then
                        match resize a (W, H) INTER_AREA with
                        | Ok out =>
                            PyDict (<["pixels" := PyDict (<["top" := PyArr out]> px)]> m)
                        | Raise _ => ob
                        end
                      else ob
                  | _ => ob
                  end
              | None => ob
              end
          | _ => ob
          end
      | _ => ob
      end
  end.

End Adapter.

(** ** Facts about the traversal *)

Lemma sequence_ok {A : Type} (l : list (res A)) (vs : list A) :
  sequence l = Ok vs <-> Forall2 (fun r v => r = Ok v) l vs.
Proof.
  revert vs. induction l as [|r l IH]; intros vs; cbn.
  - split.
    + intros [= <-]. constructor.
    + intros H. inversion H. reflexivity.
  - destruct r as [a|e]; cbn.
    + destruct (sequence l) as [vs'|e'] eqn:Hl; cbn.
      * split.
        -- intros [= <-]. constructor; [reflexivity|]. apply IH. reflexivity.
        -- intros H. inversion H as [|? v ? vs1 Hv Hrest]; subst.
           injection Hv as <-. apply IH in Hrest. congruence.
      * split; [discriminate|].
        intros H. inversion H as [|? v ? vs1 Hv Hrest]; subst.
        apply IH in Hrest. discriminate.
    + split; [discriminate|].
      intros H. inversion H; subst. discriminate.
Qed.

Lemma sequence_raise {A : Type} (l : list (res A)) e :
  sequence l = Raise e -> In (Raise e) l.
Proof.
  induction l as [|r l IH]; cbn; [discriminate|].
  destruct r as [a|e']; cbn.
  - destruct (sequence l) as [vs|e'']; cbn; [discriminate|].
    intros [= ->]. right. apply IH. reflexivity.
  - intros [= ->]. left. reflexivity.
Qed.

Lemma sequence_fails {A : Type} (l : list (res A)) e :
  In (Raise e) l -> exists e', sequence l = Raise e'.
Proof.
  induction l as [|r l IH]; cbn; [tauto|].
  intros [->|Hin]; [eauto|].
  destruct r as [a|e']; cbn; [|eauto].
  destruct (IH Hin) as (e'' & ->). cbn. eauto.
Qed.

Lemma first_raise_none l :
  first_raise l = None <-> forall k r, (k, r) ∈ l -> exists v, r = Ok v.
Proof.
  induction l as [|[k [v|e]] l IH]; cbn.
  - split; [|reflexivity]. intros _ k r Hin. inversion Hin.
  - rewrite IH. split.
    + intros H k' r Hin. apply elem_of_cons in Hin as [[= -> ->]|Hin]; eauto.
    + intros H k' r Hin. apply (H k'). right. exact Hin.
  - split; [discriminate|].
    intros H. destruct (H k (Raise e)) as (v & Hv); [left|discriminate].
Qed.

Lemma first_raise_some l e :
  first_raise l = Some e -> exists k, (k, Raise e) ∈ l.
Proof.
  induction l as [|[k [v|e']] l IH]; cbn; [discriminate| |].
  - intros H. destruct (IH H) as (k' & Hk'). exists k'. right. exact Hk'.
  - intros [= ->]. exists k. left.
Qed.

Lemma sorted_entries (m : gmap string (res pyval)) k r :
  (k, r) ∈ merge_sort key_le (map_to_list m) <-> m !! k = Some r.
Proof.
  rewrite merge_sort_Permutation. apply elem_of_map_to_list.
Qed.

Lemma dict_collect_ok (m : gmap string (res pyval)) m' :
  dict_collect m = Ok m' <->
  (forall k r, m !! k = Some r -> exists v, r = Ok v) /\ m' = omap res_get m.
Proof.
  unfold dict_collect.
  destruct (first_raise _) as [e|] eqn:Hf.
  - split; [discriminate|]. intros [Hall _].
    apply first_raise_some in Hf as (k & Hk). apply sorted_entries in Hk.
    destruct (Hall _ _ Hk) as (v & Hv). discriminate.
  - split.
    + intros [= <-]. split; [|reflexivity].
      intros k r Hk. eapply first_raise_none; [exact Hf|].
      apply sorted_entries. exact Hk.
    + intros [_ ->]. reflexivity.
Qed.

Lemma dict_collect_raise (m : gmap string (res pyval)) e :
  dict_collect m = Raise e -> exists k, m !! k = Some (Raise e).
Proof.
  unfold dict_collect.
  destruct (first_raise _) as [e'|] eqn:Hf; [|discriminate].
  intros [= ->]. apply first_raise_some in Hf as (k & Hk).
  exists k. apply sorted_entries. exact Hk.
Qed.

Lemma dict_collect_fails (m : gmap string (res pyval)) k e :
  m !! k = Some (Raise e) -> exists e', dict_collect m = Raise e'.
Proof.
  intros Hk. destruct (dict_collect m) as [m'|e'] eqn:Hc; [|eauto].
  apply dict_collect_ok in Hc as [Hall _].
  destruct (Hall _ _ Hk) as (v & Hv). discriminate.
Qed.

(** *** Structural induction on observations *)

Fixpoint psize (v : pyval) : nat :=
  match v with
  | PySeq _ l => S (list_sum (map psize l))
  | PyDict m => S (map_fold (fun _ v' acc => psize v' + acc) 0 m)
  | _ => 1
  end.

Lemma psize_seq t l v : In v l -> psize v < psize (PySeq t l).
Proof.
  change (psize (PySeq t l)) with (S (list_sum (map psize l))).
  unfold list_sum. induction l as [|x l IH]; cbn [In map fold_right]; [tauto|].
  intros [->|Hin]; [lia|]. specialize (IH Hin). lia.
Qed.

Lemma psize_dict (m : gmap string pyval) k v :
  m !! k = Some v -> psize v < psize (PyDict m).
Proof.
  intros Hk. cbn.
  rewrite (map_fold_delete_L _ _ k v m); [lia| |exact Hk].
  intros. lia.
Qed.

Lemma pyval_rect_nested (P : pyval -> Prop) :
  (forall v, is_leaf v = true -> P v) ->
  P PyNone ->
  (forall t l, (forall v, In v l -> P v) -> P (PySeq t l)) ->
  (forall m : gmap string pyval,
      (forall k v, m !! k = Some v -> P v) -> P (PyDict m)) ->
  forall v, P v.
Proof.
  intros Hleaf Hnone Hseq Hdict v.
  remember (psize v) as n eqn:Hn. revert v Hn.
  induction n as [n IH] using lt_wf_ind. intros v ->.
  assert (IH' : forall v', psize v' < psize v -> P v').
  { intros v' Hlt. apply (IH _ Hlt). reflexivity. }
  clear IH. destruct v as [|z|str|id|a|t l|m];
    try (apply Hleaf; reflexivity); [exact Hnone| |].
  - apply Hseq. intros v Hin. apply IH'. apply psize_seq. exact Hin.
  - apply Hdict. intros k v Hk. apply IH'. eapply psize_dict. exact Hk.
Qed.


(** ** Properties of the observation adapter *)

(** An observation the policy can consume: a nesting of lists, tuples and
    dicts (or [None]) whose leaves are all numeric arrays. *)
Inductive valid_obs : pyval -> Prop :=
| valid_none : valid_obs PyNone
| valid_arr a : numeric (arr_dtype a) = true -> valid_obs (PyArr a)
| valid_seq t l : (forall v, In v l -> valid_obs v) -> valid_obs (PySeq t l)
| valid_dict (m : gmap string pyval) :
    (forall k v, m !! k = Some v -> valid_obs v) -> valid_obs (PyDict m).

(** [batched_as ob ob']: [ob'] has the nesting and the keys of [ob], and
    each of its leaves is the leaf of [ob] at the same place, same element
    type and same elements, under one new leading axis of size one. *)
Inductive batched_as : pyval -> pyval -> Prop :=
| batched_none : batched_as PyNone PyNone
| batched_arr a b :
    arr_dtype b = arr_dtype a -> shape b = 1 :: shape a -> buffer b = buffer a ->
    batched_as (PyArr a) (PyArr b)
| batched_seq t l l' :
    Forall2 batched_as l l' -> batched_as (PySeq t l) (PySeq t l')
| batched_dict (m m' : gmap string pyval) :
    (forall k, option_Forall2 batched_as (m !! k) (m' !! k)) ->
    batched_as (PyDict m) (PyDict m').

Section AdapterFacts.

Variable np_coerce : pyval -> res ndarray.

Lemma tree_map_leaf f v : is_leaf v = true -> tree_map f v = f v.
Proof. destruct v; (discriminate || reflexivity). Qed.

(** C4: on an observation whose leaves are all numeric arrays the batching
    adapter succeeds, whatever numpy's conversion does elsewhere, and returns
    an observation of the same nesting and keys in which every leaf is the
    input leaf under one new leading axis of size one.  The adapter is a
    function of the observation alone: it reads no state and changes none. *)
Theorem obs_to_batched_valid ob :
  valid_obs ob ->
  exists ob', _obs_to_batched np_coerce ob = Ok ob' /\ batched_as ob ob'.
Proof.
  unfold _obs_to_batched.
  induction 1 as [|a Ha|t l _ IH|m _ IH].
  - exists PyNone. split; [reflexivity|constructor].
  - exists (PyArr (expand_leading a)). split; [reflexivity|].
    constructor; reflexivity.
  - assert (Hl : exists l', sequence (map (tree_map (batch_leaf np_coerce)) l) = Ok l'
                            /\ Forall2 batched_as l l').
    { induction l as [|v l IHl].
      - exists []. split; [reflexivity|constructor].
      - destruct (IH v) as (v' & Hv & Hb); [left; reflexivity|].
        destruct IHl as (l' & Hl & Hbl); [intros x Hx; apply IH; right; exact Hx|].
        exists (v' :: l'). split; [|constructor; assumption].
        cbn. rewrite Hv. cbn. rewrite Hl. reflexivity. }
    destruct Hl as (l' & Hl & Hbl).
    exists (PySeq t l'). split; [cbn; rewrite Hl; reflexivity|].
    constructor. exact Hbl.
  - set (f := tree_map (batch_leaf np_coerce)) in *.
    exists (PyDict (omap res_get (f <$> m))). split.
    + cbn. fold f.
      replace (dict_collect (f <$> m)) with (Ok (omap res_get (f <$> m)));
        [reflexivity|].
      symmetry. apply dict_collect_ok. split; [|reflexivity].
      intros k r Hk. rewrite lookup_fmap in Hk.
      destruct (m !! k) as [v|] eqn:Hv; [|discriminate].
      injection Hk as <-. destruct (IH k v Hv) as (v' & -> & _). eauto.
    + constructor. intros k. rewrite lookup_omap, lookup_fmap.
      destruct (m !! k) as [v|] eqn:Hv; [|constructor].
      destruct (IH k v Hv) as (v' & Hv' & Hb). cbn. rewrite Hv'. cbn.
      constructor. exact Hb.
Qed.

(** A leaf whose conversion raises makes the adapter raise. *)
Lemma obs_to_batched_fails ob x e :
  leaf_of ob x -> asarray np_coerce x = Raise e ->
  exists e', _obs_to_batched np_coerce ob = Raise e'.
Proof.
  unfold _obs_to_batched. intros Hleaf Hx.
  induction Hleaf as [x Hl|t l v x Hin _ IH|m k v x Hk _ IH].
  - exists e. rewrite tree_map_leaf by exact Hl.
    unfold batch_leaf. rewrite Hx. reflexivity.
  - destruct (IH Hx) as (e' & He').
    destruct (sequence_fails (map (tree_map (batch_leaf np_coerce)) l) e')
      as (e'' & Hs).
    { rewrite <- He'. apply in_map. exact Hin. }
    exists e''. cbn. rewrite Hs. reflexivity.
  - destruct (IH Hx) as (e' & He').
    destruct (dict_collect_fails (tree_map (batch_leaf np_coerce) <$> m) k e')
      as (e'' & Hs).
    { rewrite lookup_fmap, Hk. cbn. rewrite He'. reflexivity. }
    exists e''. cbn. rewrite Hs. reflexivity.
Qed.

(** The adapter raises nothing of its own: its exception is the one the
    conversion of one of the leaves raised. *)
Lemma obs_to_batched_raise ob e :
  _obs_to_batched np_coerce ob = Raise e ->
  exists x, leaf_of ob x /\ asarray np_coerce x = Raise e.
Proof.
  unfold _obs_to_batched. revert e.
  induction ob as [v Hl| |t l IH|m IH] using pyval_rect_nested; intros e Hr.
  - exists v. split; [constructor; exact Hl|].
    rewrite tree_map_leaf in Hr by exact Hl. unfold batch_leaf in Hr.
    destruct (asarray np_coerce v); [discriminate|].
    injection Hr as ->. reflexivity.
  - discriminate.
  - cbn in Hr.
    destruct (sequence _) as [l'|e'] eqn:Hs; [discriminate|].
    injection Hr as ->. apply sequence_raise in Hs.
    apply in_map_iff in Hs as (v & Hv & Hin).
    destruct (IH v Hin e Hv) as (x & Hx & Hax).
    exists x. split; [eapply leaf_seq; eassumption|exact Hax].
  - cbn in Hr.
    destruct (dict_collect _) as [m'|e'] eqn:Hs; [discriminate|].
    injection Hr as ->. apply dict_collect_raise in Hs as (k & Hk).
    rewrite lookup_fmap in Hk.
    destruct (m !! k) as [v|] eqn:Hv; [|discriminate].
    injection Hk as Hk.
    destruct (IH k v Hv e Hk) as (x & Hx & Hax).
    exists x. split; [eapply leaf_dict; eassumption|exact Hax].
Qed.

End AdapterFacts.

(** *** The resize of the top camera image *)

(** [ob["pixels"]["top"]], when the observation has it. *)
Definition top_image (ob : pyval) : option pyval :=
  match ob with
  | PyDict m =>
      match m !! "pixels" with
      | Some (PyDict px) => px !! "top"
      | _ => None
      end
  | _ => None
  end.

(** [same_except_top ob ob']: two dict observations that agree on every
    entry but ["pixels"], whose ["pixels"] dicts agree on every entry but
    ["top"]. *)
Definition same_except_top (ob ob' : pyval) : Prop :=
  exists (m m' px px' : gmap string pyval),
    ob = PyDict m /\ ob' = PyDict m'
    /\ m !! "pixels" = Some (PyDict px) /\ m' !! "pixels" = Some (PyDict px')
    /\ (forall k, k <> "pixels" -> m' !! k = m !! k)
    /\ (forall k, k <> "top" -> px' !! k = px !! k).

(** What OpenCV promises of [cv2.resize(img, (W, H))]: an image of [H] rows
    and [W] columns. *)
Definition resizes_to_size (resize : cv2_resize_t) : Prop :=
  forall img W H i out, resize img (W, H) i = Ok out -> resolution out = [H; W].

Lemma resize_top_cases cv2 H W ob :
  _resize_top cv2 (H, W) ob = ob
  \/ exists resize (m px : gmap string pyval) a out,
       cv2 = Some resize /\ ob = PyDict m
       /\ m !! "pixels" = Some (PyDict px) /\ px !! "top" = Some (PyArr a)
       /\ ndim a = 3 /\ resolution a <> [H; W]
       /\ resize a (W, H) INTER_AREA = Ok out
       /\ _resize_top cv2 (H, W) ob
          = PyDict (<["pixels" := PyDict (<["top" := PyArr out]> px)]> m).
Proof.
  unfold _resize_top.
  destruct cv2 as [resize|]; [|left; reflexivity].
  destruct ob as [| | | | | |m]; try (left; reflexivity).
  destruct (m !! "pixels") as [[| | | | | |px]|] eqn:Hpx; try (left; reflexivity).
  destruct (px !! "top") as [[| | | |a| |]|] eqn:Htop; try (left; reflexivity).
  destruct ((ndim a =? 3) && resolution_differs a H W) eqn:Hc;
    [|left; reflexivity].
  destruct (resize a (W, H) INTER_AREA) as [out|e] eqn:Hr; [|left; reflexivity].
  right. exists resize, m, px, a, out.
  apply andb_true_iff in Hc as [Hn Hd].
  apply Nat.eqb_eq in Hn. apply bool_decide_eq_true in Hd.
  repeat split; assumption || reflexivity.
Qed.

(** C5: [_resize_top] changes an observation only when OpenCV is there, the
    observation is a dict with an array at ["pixels"]["top"], that array has
    three axes and its rows and columns differ from [(H, W)], and the resize
    goes through; then that entry holds the resized image, of [H] rows and [W]
    columns, and every other entry is as it was.  Without OpenCV, without the
    entry, or when the resize raises, the observation comes back as it was;
    the function always returns an observation and never raises. *)
Theorem resize_top_spec cv2 H W ob :
  (forall resize, cv2 = Some resize -> resizes_to_size resize) ->
  (_resize_top cv2 (H, W) ob <> ob ->
     exists resize a out,
       cv2 = Some resize /\ top_image ob = Some (PyArr a)
       /\ ndim a = 3 /\ resolution a <> [H; W]
       /\ resize a (W, H) INTER_AREA = Ok out)
  /\ (forall resize a out,
        cv2 = Some resize -> top_image ob = Some (PyArr a) ->
        ndim a = 3 -> resolution a <> [H; W] ->
        resize a (W, H) INTER_AREA = Ok out ->
        top_image (_resize_top cv2 (H, W) ob) = Some (PyArr out)
        /\ resolution out = [H; W]
        /\ same_except_top ob (_resize_top cv2 (H, W) ob))
  /\ (cv2 = None -> _resize_top cv2 (H, W) ob = ob)
  /\ (top_image ob = None -> _resize_top cv2 (H, W) ob = ob)
  /\ (forall resize a e,
        cv2 = Some resize -> top_image ob = Some (PyArr a) ->
        resize a (W, H) INTER_AREA = Raise e ->
        _resize_top cv2 (H, W) ob = ob).
Proof.
  intros Hcv2.
  destruct (resize_top_cases cv2 H W ob)
    as [Hsame|(resize & m & px & a & out & -> & -> & Hpx & Htop & Hn & Hd & Hr & Hres)].
  { rewrite Hsame. split; [congruence|]. split; [|auto].
    intros resize a out -> Hti Hn Hd Hr. exfalso.
    unfold top_image in Hti. unfold _resize_top in Hsame.
    destruct ob as [| | | | | |m]; try discriminate.
    destruct (m !! "pixels") as [[| | | | | |px]|] eqn:Hpx; try discriminate.
    rewrite Hti, Hr in Hsame.
    replace ((ndim a =? 3) && resolution_differs a H W) with true in Hsame.
    2: { symmetry. apply andb_true_iff. split; [apply Nat.eqb_eq, Hn|].
         apply bool_decide_eq_true. exact Hd. }
    injection Hsame as Hm.
    assert (Hl : (<["pixels" := PyDict (<["top" := PyArr out]> px)]> m) !! "pixels"
                 = Some (PyDict px)) by (rewrite Hm; exact Hpx).
    rewrite lookup_insert_eq in Hl. injection Hl as Hl.
    assert (Hl' : (<["top" := PyArr out]> px) !! "top" = Some (PyArr a))
      by (rewrite Hl; exact Hti).
    rewrite lookup_insert_eq in Hl'. injection Hl' as ->.
    apply Hd. eapply (Hcv2 resize eq_refl). exact Hr. }
  rewrite Hres.
  assert (Hti : top_image (PyDict m) = Some (PyArr a)).
  { unfold top_image. rewrite Hpx. exact Htop. }
  split. { intros _. exists resize, a, out. auto. }
  split.
  { intros resize' a' out' [= <-] Hti' _ _ Hr'.
    rewrite Hti in Hti'. injection Hti' as <-.
    rewrite Hr in Hr'. injection Hr' as <-.
    split. { unfold top_image. rewrite lookup_insert_eq. apply lookup_insert_eq. }
    split. { eapply (Hcv2 resize eq_refl). exact Hr. }
    exists m, (<["pixels" := PyDict (<["top" := PyArr out]> px)]> m),
           px, (<["top" := PyArr out]> px).
    split; [reflexivity|]. split; [reflexivity|]. split; [exact Hpx|].
    split; [apply lookup_insert_eq|].
    split; intros k Hk; apply lookup_insert_ne; congruence. }
  split; [discriminate|].
  split. { intros Hnone. rewrite Hti in Hnone. discriminate. }
  intros resize' a' e [= <-] Hti' Hr'.
  rewrite Hti in Hti'. injection Hti' as <-.
  rewrite Hr in Hr'. discriminate.
Qed.

(** ** The episode runner *)

(** What [env.step] hands back, after the conversions the loop applies to it:
    [float(r)] for the reward and truthiness for the two flags.  The [info]
    entry is never read. *)
Record step_result : Type := StepResult {
  next_obs : pyval;
  reward : float;
  terminated : bool;
  truncated : bool
}.

(** A gymnasium environment over the mutable world it lives in. *)
Record Env (World : Type) : Type := {
  env_reset : World -> res pyval * World;
  env_step : ndarray -> World -> res step_result * World;
  env_render : World -> res pyval * World
}.
Arguments env_reset {World} _ _.
Arguments env_step {World} _ _ _.
Arguments env_render {World} _ _.

(** The restored agent: a frozen function of the batched observation and the
    seed. *)
Record Agent (Key : Type) : Type := {
  sample_actions : pyval -> Key -> res pyval
}.
Arguments sample_actions {Key} _ _ _.

(** [jax.random]. *)
Record Jax (Key : Type) : Type := {
  PRNGKey : Z -> Key;
  split : Key -> Key * Key
}.
Arguments PRNGKey {Key} _ _.
Arguments split {Key} _ _.

(** The module-level [imageio] (absent when its import failed) and the two
    [os] functions used to store the video. *)
Record Host (World : Type) : Type := {
  imageio : option (string -> list ndarray -> Z -> World -> res unit * World);
  os_path_dirname : string -> string;
  os_makedirs : string -> World -> res unit * World
}.
Arguments imageio {World} _.
Arguments os_path_dirname {World} _ _.
Arguments os_makedirs {World} _ _ _.

(** The calls the runner makes to its collaborators, each with its outcome. *)
Inductive event (Key : Type) : Type :=
| EvReset (out : res pyval)
| EvSample (batched : pyval) (seed : Key) (out : res pyval)
| EvStep (action : ndarray) (out : res step_result)
| EvRender (out : res pyval)
| EvMakedirs (dir : string) (out : res unit)
| EvMimsave (path : string) (frames : list ndarray) (fps : Z) (out : res unit)
| EvPrint (msg : string).
Arguments EvReset {Key} out.
Arguments EvSample {Key} batched seed out.
Arguments EvStep {Key} action out.
Arguments EvRender {Key} out.
Arguments EvMakedirs {Key} dir out.
Arguments EvMimsave {Key} path frames fps out.
Arguments EvPrint {Key} msg.

(** [dict(return_=ep_ret, length=ep_len)]. *)
Record EpisodeResult : Type := {
  return_ : float;
  length_ : Z
}.

(** The local variables the [while] loop carries from one round to the next. *)
Record loop_state (Key : Type) : Type := LoopState {
  key : Key;
  obs : pyval;
  ep_ret : float;
  ep_len : Z;
  frames : list ndarray
}.
Arguments LoopState {Key} _ _ _ _ _.
Arguments key {Key} _.
Arguments obs {Key} _.
Arguments ep_ret {Key} _.
Arguments ep_len {Key} _.
Arguments frames {Key} _.

(** Python truthiness of [record_path]: [None] and the empty string are
    false. *)
Definition path_given (record_path : option string) : option string :=
  match record_path with
  | Some p => if bool_decide (p = "") then None else Some p
  | None => None
  end.

(** ** Reading the call log *)

(** What one successful round of the loop exchanged with its collaborators. *)
Record round (Key : Type) : Type := Round {
  r_batched : pyval;
  r_sub : Key;
  r_sampled : pyval;
  r_action : ndarray;
  r_sr : step_result;
  r_shot : option pyval
}.
Arguments Round {Key} _ _ _ _ _ _.
Arguments r_batched {Key} _.
Arguments r_sub {Key} _.
Arguments r_sampled {Key} _.
Arguments r_action {Key} _.
Arguments r_sr {Key} _.
Arguments r_shot {Key} _.

(** The log entries of one successful round. *)
Definition round_log {Key : Type} (r : round Key) : list (event Key) :=
  [EvSample (r_batched r) (r_sub r) (Ok (r_sampled r));
   EvStep (r_action r) (Ok (r_sr r))]
  ++ match r_shot r with
     | Some frame => [EvRender (Ok frame)]
     | None => []
     end.

Definition rounds_log {Key : Type} (rs : list (round Key)) : list (event Key) :=
  concat (map round_log rs).

(** The actions submitted to [env.step], in order. *)
Definition actions {Key : Type} (tr : list (event Key)) : list ndarray :=
  omap (fun e => match e with EvStep a _ => Some a | _ => None end) tr.

(** What the successful [env.step] calls returned, in order. *)
Definition step_outs {Key : Type} (tr : list (event Key)) : list step_result :=
  omap (fun e => match e with EvStep _ (Ok sr) => Some sr | _ => None end) tr.

(** The seeds passed to [sample_actions], in order. *)
Definition seeds {Key : Type} (tr : list (event Key)) : list Key :=
  omap (fun e => match e with EvSample _ k _ => Some k | _ => None end) tr.

(** The videos stored by [imageio.mimsave]. *)
Definition videos {Key : Type} (tr : list (event Key)) :
    list (string * list ndarray * Z) :=
  omap (fun e => match e with
                 | EvMimsave p fs fps (Ok _) => Some (p, fs, fps)
                 | _ => None
                 end) tr.

(** The images [env.render] returned, in order. *)
Definition shots {Key : Type} (tr : list (event Key)) : list ndarray :=
  omap (fun e => match e with EvRender (Ok (PyArr a)) => Some a | _ => None end) tr.

(** [ep_ret] after adding the rewards of [srs] to [acc], one by one. *)
Definition add_rewards (acc : float) (srs : list step_result) : float :=
  fold_left (fun a sr => (a + reward sr)%float) srs acc.

(** The exit test of the loop after a step that answered [sr] and brought
    [ep_len] to [n]. *)
Definition exit_test (max_steps : Z) (sr : step_result) (n : Z) : bool :=
  terminated sr || truncated sr || (n >=? max_steps)%Z.

Lemma actions_rounds {Key : Type} (rs : list (round Key)) :
  actions (rounds_log rs) = map r_action rs.
Proof.
  unfold rounds_log, actions. induction rs as [|r rs IH]; [reflexivity|].
  cbn [map concat]. rewrite omap_app, IH.
  unfold round_log. destruct (r_shot r); reflexivity.
Qed.

Lemma step_outs_rounds {Key : Type} (rs : list (round Key)) :
  step_outs (rounds_log rs) = map r_sr rs.
Proof.
  unfold rounds_log, step_outs. induction rs as [|r rs IH]; [reflexivity|].
  cbn [map concat]. rewrite omap_app, IH.
  unfold round_log. destruct (r_shot r); reflexivity.
Qed.

Lemma seeds_rounds {Key : Type} (rs : list (round Key)) :
  seeds (rounds_log rs) = map r_sub rs.
Proof.
  unfold rounds_log, seeds. induction rs as [|r rs IH]; [reflexivity|].
  cbn [map concat]. rewrite omap_app, IH.
  unfold round_log. destruct (r_shot r); reflexivity.
Qed.

Lemma shots_rounds {Key : Type} (rs : list (round Key)) :
  shots (rounds_log rs)
  = concat (map (fun r => match r_shot r with
                          | Some (PyArr a) => [a]
                          | _ => []
                          end) rs).
Proof.
  unfold rounds_log, shots. induction rs as [|r rs IH]; [reflexivity|].
  cbn [map concat]. rewrite omap_app, IH. f_equal.
  unfold round_log. destruct (r_shot r) as [[]|]; reflexivity.
Qed.

Lemma videos_rounds {Key : Type} (rs : list (round Key)) :
  videos (rounds_log rs) = [].
Proof.
  unfold rounds_log, videos. induction rs as [|r rs IH]; [reflexivity|].
  cbn [map concat]. rewrite omap_app, IH.
  unfold round_log. destruct (r_shot r); reflexivity.
Qed.

(** ** The shape of the [while True] loop

    The loop of [run_episode] runs its body, then leaves on
    [terminated or truncated or ep_len >= max_steps].  It is defined here over
    an arbitrary body that adds one to [ep_len], which is all that its
    termination needs: the loop goes round again only while
    [ep_len < max_steps], so the distance to the ceiling decreases. *)
Section Loop.

Context {Key ST : Type}.
Variable max_steps : Z.
Variable body : loop_state Key -> ST -> res (loop_state Key * bool * bool) * ST.
Hypothesis body_counts : forall ls s ls' t u s',
  body ls s = (Ok (ls', t, u), s') -> ep_len ls' = (ep_len ls + 1)%Z.

Equations? while_true (ls : loop_state Key) (s : ST) :
    res (loop_state Key) * ST by wf (Z.to_nat (max_steps - ep_len ls)) lt :=
  while_true ls s with inspect (body ls s) := {
    | exist _ (Raise e, s') _ => (Raise e, s')
    | exist _ (Ok (ls', term, trunc), s') Hbody
        with inspect (term || trunc || (ep_len ls' >=? max_steps)%Z) := {
        | exist _ true _ => (Ok ls', s')
        | exist _ false Hgo => while_true ls' s' } }.
Proof.
  apply body_counts in Hbody.
  apply orb_false_elim in Hgo as [_ Hgo]. lia.
Qed.

(** The same loop as a big-step relation: the rounds it makes, one
    constructor per way a round can end. *)
Inductive loop_rel : loop_state Key -> ST -> res (loop_state Key) * ST -> Prop :=
| loop_raise ls s e s' :
    body ls s = (Raise e, s') ->
    loop_rel ls s (Raise e, s')
| loop_break ls s ls' term trunc s' :
    body ls s = (Ok (ls', term, trunc), s') ->
    term || trunc || (ep_len ls' >=? max_steps)%Z = true ->
    loop_rel ls s (Ok ls', s')
| loop_again ls s ls' term trunc s' out :
    body ls s = (Ok (ls', term, trunc), s') ->
    term || trunc || (ep_len ls' >=? max_steps)%Z = false ->
    loop_rel ls' s' out ->
    loop_rel ls s out.

Lemma while_true_rel ls s : loop_rel ls s (while_true ls s).
Proof.
  funelim (while_true ls s).
  - eapply loop_raise; eassumption.
  - eapply loop_break; eassumption.
  - eapply loop_again; eassumption.
Qed.

Lemma loop_rel_functional ls s out1 out2 :
  loop_rel ls s out1 -> loop_rel ls s out2 -> out1 = out2.
Proof.
  intros H1. revert out2.
  induction H1 as [ls s e s' Hb|ls s ls' t u s' Hb Hx|ls s ls' t u s' out Hb Hx _ IH];
    intros out2 H2;
    inversion H2 as [? ? ? ? Hb2|? ? ? ? ? ? Hb2 Hx2|? ? ? ? ? ? ? Hb2 Hx2 Hr2];
    subst; rewrite Hb in Hb2; inversion Hb2; subst;
    try reflexivity; try congruence.
  apply IH. assumption.
Qed.

End Loop.

Section Runner.

Context {Key World : Type}.
Variable jax : Jax Key.
Variable np_coerce : pyval -> res ndarray.
Variable cv2 : option cv2_resize_t.
Variable host : Host World.

(** *** A state-and-exception monad over the world and the call log *)

Definition state : Type := World * list (event Key).

Definition M (A : Type) : Type := state -> res A * state.

Definition retM {A : Type} (a : A) : M A := fun s => (Ok a, s).

Definition bindM {A B : Type} (m : M A) (k : A -> M B) : M B :=
  fun s =>
    match m s with
    | (Ok a, s') => k a s'
    | (Raise e, s') => (Raise e, s')
    end.

(** A pure computation that may raise. *)
Definition lift {A : Type} (r : res A) : M A := fun s => (r, s).

(** A call into the world, logged with its outcome. *)
Definition call {A : Type} (op : World -> res A * World)
    (ev : res A -> event Key) : M A :=
  fun s =>
    let '(r, w') := op s.1 in
    (r, (w', s.2 ++ [ev r])).

(** A call to a pure collaborator, logged with its outcome. *)
Definition query {A : Type} (r : res A) (ev : res A -> event Key) : M A :=
  fun s => (r, (s.1, s.2 ++ [ev r])).

Definition emit (e : event Key) : M unit :=
  fun s => (Ok tt, (s.1, s.2 ++ [e])).

Notation "'do' x <- m ; k" := (bindM m (fun x => k))
  (at level 10, x name, m at level 100, k at level 200).

Variable agent : Agent Key.
Variable env : Env World.
Variable render : bool.
Variable record_path : option string.
Variable max_steps : Z.
Variable img_hw : Z * Z.

(** [if render: frame = env.render(); if isinstance(frame, np.ndarray) and
    imageio is not None: frames.append(frame)]. *)
Definition capture (fs : list ndarray) : M (list ndarray) :=
  if render then
    do frame <- call (env_render env) EvRender;
    retM (match frame, imageio host with
          | PyArr a, Some _ => fs ++ [a]
          | _, _ => fs
          end)
  else retM fs.

(** One round of the [while True] body, up to the exit test; it returns the
    updated locals and the two flags of the step. *)
Definition iteration (ls : loop_state Key) : M (loop_state Key * bool * bool) :=
  do batched <- lift (_obs_to_batched np_coerce (obs ls));
  let '(key', sub) := split jax (key ls) in
  do sampled <- query (sample_actions agent batched sub) (EvSample batched sub);
  do arr <- lift (asarray np_coerce sampled);
  do action <- lift (index0 arr);
  do sr <- call (env_step env action) (EvStep action);
  let obs' := _resize_top cv2 img_hw (next_obs sr) in
  let ep_ret' := (ep_ret ls + reward sr)%float in
  let ep_len' := (ep_len ls + 1)%Z in
  do frames' <- capture (frames ls);
  retM (LoopState key' obs' ep_ret' ep_len' frames', terminated sr, truncated sr).

(** The frames a round appends to the buffer. *)
Definition captured (r : round Key) : list ndarray :=
  match r_shot r, imageio host with
  | Some (PyArr a), Some _ => [a]
  | _, _ => []
  end.

Lemma capture_ok fs s fs' s' :
  capture fs s = (Ok fs', s') ->
  exists shot,
    s'.2 = s.2 ++ match shot with Some fr => [EvRender (Ok fr)] | None => [] end
    /\ fs' = fs ++ match shot, imageio host with
                   | Some (PyArr a), Some _ => [a]
                   | _, _ => []
                   end
    /\ (render = false -> shot = None /\ s'.1 = s.1)
    /\ (render = true -> exists fr,
          shot = Some fr /\ env_render env s.1 = (Ok fr, s'.1)).
Proof.
  unfold capture, bindM, call, retM. destruct s as [w tr].
  destruct render; cbn.
  - destruct (env_render env w) as [[fr|e] w'] eqn:Hr; cbn; [|discriminate].
    intros [= <- <-]. exists (Some fr). cbn.
    split; [reflexivity|]. split.
    { destruct fr, (imageio host); cbn; rewrite ?app_nil_r; reflexivity. }
    split; [discriminate|]. intros _. eauto.
  - intros [= <- <-]. exists None. cbn. rewrite !app_nil_r.
    split; [reflexivity|]. split; [reflexivity|]. split; [auto|discriminate].
Qed.

(** [round_ok ls s r ls' s']: the round [r], started with locals [ls] in
    state [s], went through and left locals [ls'] and state [s']. *)
Record round_ok (ls : loop_state Key) (s : state) (r : round Key)
    (ls' : loop_state Key) (s' : state) : Prop := {
  ro_batched : _obs_to_batched np_coerce (obs ls) = Ok (r_batched r);
  ro_sub : r_sub r = (split jax (key ls)).2;
  ro_sampled : sample_actions agent (r_batched r) (r_sub r) = Ok (r_sampled r);
  ro_action : res_bind (asarray np_coerce (r_sampled r)) index0 = Ok (r_action r);
  ro_step : exists w1, env_step env (r_action r) s.1 = (Ok (r_sr r), w1)
            /\ (render = false -> s'.1 = w1)
            /\ (render = true -> exists fr,
                  r_shot r = Some fr /\ env_render env w1 = (Ok fr, s'.1));
  ro_shot : render = false -> r_shot r = None;
  ro_key : key ls' = (split jax (key ls)).1;
  ro_obs : obs ls' = _resize_top cv2 img_hw (next_obs (r_sr r));
  ro_ret : ep_ret ls' = (ep_ret ls + reward (r_sr r))%float;
  ro_len : ep_len ls' = (ep_len ls + 1)%Z;
  ro_frames : frames ls' = frames ls ++ captured r;
  ro_log : s'.2 = s.2 ++ round_log r
}.

Lemma iteration_ok ls s ls' t u s' :
  iteration ls s = (Ok (ls', t, u), s') ->
  exists r, round_ok ls s r ls' s'
            /\ t = terminated (r_sr r) /\ u = truncated (r_sr r).
Proof.
  unfold iteration, bindM, lift, query, call, retM. destruct s as [w tr]. cbn.
  destruct (_obs_to_batched np_coerce (obs ls)) as [batched|] eqn:Hb; [|discriminate].
  destruct (split jax (key ls)) as [k' sub] eqn:Hk. cbn.
  destruct (sample_actions agent batched sub) as [sampled|] eqn:Hs; [|discriminate].
  destruct (asarray np_coerce sampled) as [arr|] eqn:Ha; [|discriminate].
  destruct (index0 arr) as [action|] eqn:Hi; [|discriminate].
  destruct (env_step env action w) as [[sr|e] w1] eqn:He; [|discriminate].
  rewrite <- app_assoc. cbn [app].
  destruct (capture (frames ls) _) as [[fs'|e] s1] eqn:Hc; [|discriminate].
  intros [= <- <- <- <-].
  destruct (capture_ok _ _ _ _ Hc) as (shot & Hlog & Hfs & Hoff & Hon).
  cbn in Hlog, Hoff, Hon.
  exists (Round batched sub sampled action sr shot).
  split; [|split; reflexivity].
  constructor; cbn; try reflexivity; try assumption.
  - rewrite Hk. reflexivity.
  - rewrite Ha. exact Hi.
  - exists w1. split; [assumption|]. split; [intros Hr; apply Hoff, Hr|exact Hon].
  - intros Hr. apply Hoff, Hr.
  - rewrite Hk. reflexivity.
  - rewrite Hlog, <- app_assoc. reflexivity.
Qed.

Lemma iteration_ep_len ls s ls' t u s' :
  iteration ls s = (Ok (ls', t, u), s') -> ep_len ls' = (ep_len ls + 1)%Z.
Proof.
  intros Hit. apply iteration_ok in Hit as (r & Hr & _). apply Hr.
Qed.

(** The [while True] loop of [run_episode]. *)
Definition episode_loop : loop_state Key -> M (loop_state Key) :=
  while_true max_steps iteration iteration_ep_len.

(** The tail of [run_episode]: store the video when a path is given, the
    backend is there and at least one frame was captured. *)
Definition save_video (fs : list ndarray) : M unit :=
  match path_given record_path, imageio host with
  | Some p, Some mimsave =>
      if bool_decide (fs = []) then retM tt
      else
        do _ <- call (os_makedirs host (os_path_dirname host p))
                     (EvMakedirs (os_path_dirname host p));
        do _ <- call (mimsave p fs 30%Z) (EvMimsave p fs 30%Z);
        emit (EvPrint ("[video] saved: " +:+ p))
  | _, _ => retM tt
  end.

Definition initial_state (ob : pyval) : loop_state Key :=
  LoopState (PRNGKey jax 0) (_resize_top cv2 img_hw ob) 0%float 0%Z [].

Definition run_episode_from : M EpisodeResult :=
  do ob <- call (env_reset env) EvReset;
  do ls <- episode_loop (initial_state ob);
  do _ <- save_video (frames ls);
  retM {| return_ := ep_ret ls; length_ := ep_len ls |}.

(** [run_episode(agent, env, render, record_path, max_steps, img_hw)] in
    world [w]: its outcome, the world it leaves and the calls it made. *)
Definition run_episode (w : World) : res EpisodeResult * state :=
  run_episode_from (w, []).

(** *** The rounds of a successful loop *)

(** [chain ls s rs ls' s']: from locals [ls] and state [s] the loop made
    exactly the rounds [rs], left after the last of them, and ended with
    locals [ls'] in state [s']. *)
Inductive chain : loop_state Key -> state -> list (round Key) ->
    loop_state Key -> state -> Prop :=
| chain_last ls s r ls' s' :
    round_ok ls s r ls' s' ->
    exit_test max_steps (r_sr r) (ep_len ls') = true ->
    chain ls s [r] ls' s'
| chain_more ls s r ls1 s1 rs ls' s' :
    round_ok ls s r ls1 s1 ->
    exit_test max_steps (r_sr r) (ep_len ls1) = false ->
    chain ls1 s1 rs ls' s' ->
    chain ls s (r :: rs) ls' s'.

Lemma loop_rel_chain ls s out :
  loop_rel max_steps iteration ls s out ->
  forall ls' s', out = (Ok ls', s') -> exists rs, chain ls s rs ls' s'.
Proof.
  induction 1 as [ls s e s1 Hb|ls s ls1 t u s1 Hb Hx|ls s ls1 t u s1 out Hb Hx _ IH];
    intros ls' s' Hout.
  - discriminate.
  - injection Hout as <- <-.
    apply iteration_ok in Hb as (r & Hr & -> & ->).
    exists [r]. apply chain_last; assumption.
  - apply iteration_ok in Hb as (r & Hr & -> & ->).
    destruct (IH _ _ Hout) as (rs & Hrs).
    exists (r :: rs). eapply chain_more; eassumption.
Qed.

Lemma episode_loop_chain ls s ls' s' :
  episode_loop ls s = (Ok ls', s') -> exists rs, chain ls s rs ls' s'.
Proof.
  intros Hrun. eapply loop_rel_chain; [|exact Hrun].
  apply while_true_rel.
Qed.

Lemma chain_nonempty ls s rs ls' s' : chain ls s rs ls' s' -> rs <> [].
Proof. destruct 1; discriminate. Qed.

Lemma chain_log ls s rs ls' s' :
  chain ls s rs ls' s' -> s'.2 = s.2 ++ rounds_log rs.
Proof.
  induction 1 as [ls s r ls' s' Hr _|ls s r ls1 s1 rs ls' s' Hr _ _ IH].
  - rewrite (ro_log _ _ _ _ _ Hr). unfold rounds_log. cbn.
    rewrite app_nil_r. reflexivity.
  - rewrite IH, (ro_log _ _ _ _ _ Hr), <- app_assoc. reflexivity.
Qed.

Lemma chain_len ls s rs ls' s' :
  chain ls s rs ls' s' -> ep_len ls' = (ep_len ls + Z.of_nat (length rs))%Z.
Proof.
  induction 1 as [ls s r ls' s' Hr _|ls s r ls1 s1 rs ls' s' Hr _ _ IH].
  - rewrite (ro_len _ _ _ _ _ Hr). reflexivity.
  - rewrite IH, (ro_len _ _ _ _ _ Hr). cbn [length]. lia.
Qed.

Lemma chain_ret ls s rs ls' s' :
  chain ls s rs ls' s' -> ep_ret ls' = add_rewards (ep_ret ls) (map r_sr rs).
Proof.
  induction 1 as [ls s r ls' s' Hr _|ls s r ls1 s1 rs ls' s' Hr _ _ IH].
  - rewrite (ro_ret _ _ _ _ _ Hr). reflexivity.
  - rewrite IH, (ro_ret _ _ _ _ _ Hr). reflexivity.
Qed.

Lemma chain_frames ls s rs ls' s' :
  chain ls s rs ls' s' -> frames ls' = frames ls ++ concat (map captured rs).
Proof.
  induction 1 as [ls s r ls' s' Hr _|ls s r ls1 s1 rs ls' s' Hr _ _ IH].
  - rewrite (ro_frames _ _ _ _ _ Hr). cbn. rewrite app_nil_r. reflexivity.
  - rewrite IH, (ro_frames _ _ _ _ _ Hr), <- app_assoc. reflexivity.
Qed.

(** The loop leaves at the first round whose exit test holds, and at no
    other. *)
Lemma chain_exit ls s rs ls' s' :
  chain ls s rs ls' s' ->
  forall (i : nat) r, rs !! i = Some r ->
    (exit_test max_steps (r_sr r) (ep_len ls + Z.of_nat (S i)) = true
     <-> S i = length rs).
Proof.
  induction 1 as [ls s r0 ls' s' Hr Hx|ls s r0 ls1 s1 rs ls' s' Hr Hx Hc IH];
    intros i r Hi.
  - destruct i as [|i]; [|discriminate]. injection Hi as <-.
    rewrite (ro_len _ _ _ _ _ Hr) in Hx.
    replace (ep_len ls + Z.of_nat 1)%Z with (ep_len ls + 1)%Z by lia.
    split; [reflexivity|intros _; exact Hx].
  - destruct i as [|i].
    + injection Hi as <-. rewrite (ro_len _ _ _ _ _ Hr) in Hx.
      replace (ep_len ls + Z.of_nat 1)%Z with (ep_len ls + 1)%Z by lia.
      rewrite Hx. cbn [length].
      pose proof (chain_nonempty _ _ _ _ _ Hc). destruct rs; [congruence|].
      split; [discriminate|cbn; lia].
    + cbn in Hi. specialize (IH i r Hi).
      rewrite (ro_len _ _ _ _ _ Hr) in IH.
      replace (ep_len ls + Z.of_nat (S (S i)))%Z
        with (ep_len ls + 1 + Z.of_nat (S i))%Z by lia.
      rewrite IH. cbn [length]. lia.
Qed.

(** *** The stream of keys

    [nth_key k n] is the loop's [key] after [n] rounds started from [k], and
    [nth_sub k n] the seed handed to the agent in the round after those. *)
Definition nth_key (k : Key) (n : nat) : Key :=
  Nat.iter n (fun k' : Key => fst (split jax k')) k.

Definition nth_sub (k : Key) (n : nat) : Key :=
  (split jax (nth_key k n)).2.

Lemma nth_key_S k n : nth_key k (S n) = nth_key (split jax k).1 n.
Proof.
  unfold nth_key.
  exact (Nat.iter_succ_r n (fun k' : Key => fst (split jax k')) k).
Qed.

Lemma nth_sub_S k n : nth_sub k (S n) = nth_sub (split jax k).1 n.
Proof. unfold nth_sub. rewrite nth_key_S. reflexivity. Qed.

Lemma chain_seeds ls s rs ls' s' :
  chain ls s rs ls' s' ->
  map r_sub rs = map (nth_sub (key ls)) (seq 0 (length rs)).
Proof.
  induction 1 as [ls s r ls' s' Hr _|ls s r ls1 s1 rs ls' s' Hr _ _ IH].
  - cbn. rewrite (ro_sub _ _ _ _ _ Hr). reflexivity.
  - cbn [map length seq]. rewrite (ro_sub _ _ _ _ _ Hr), IH.
    f_equal. rewrite <- seq_shift, map_map, (ro_key _ _ _ _ _ Hr).
    apply map_ext. intros n. symmetry. apply nth_sub_S.
Qed.

(** *** What agent and environment really answer

    [played w ob k rs w']: from world [w], with the resized observation [ob]
    in hand and [k] rounds behind, the rounds [rs] are the ones agent and
    environment give: each round batches the observation in hand, asks
    [agent.sample_actions] on it with the [k]-th seed of the stream, submits
    slice [0] of the answer to [env.step] in the world the round before
    left, calls [env.render] in the world the step left when rendering is
    on, and hands the resized observation of the step to the next round;
    [w'] is the world after the last of them. *)
Inductive played : World -> pyval -> nat -> list (round Key) -> World -> Prop :=
| played_none w ob k : played w ob k [] w
| played_round w ob k r w1 w2 rs w' :
    _obs_to_batched np_coerce ob = Ok (r_batched r) ->
    r_sub r = nth_sub (PRNGKey jax 0) k ->
    sample_actions agent (r_batched r) (r_sub r) = Ok (r_sampled r) ->
    res_bind (asarray np_coerce (r_sampled r)) index0 = Ok (r_action r) ->
    env_step env (r_action r) w = (Ok (r_sr r), w1) ->
    (render = false -> r_shot r = None /\ w2 = w1) ->
    (render = true ->
     exists fr, r_shot r = Some fr /\ env_render env w1 = (Ok fr, w2)) ->
    played w2 (_resize_top cv2 img_hw (next_obs (r_sr r))) (S k) rs w' ->
    played w ob k (r :: rs) w'.

Lemma round_played ls s r ls' s' k rs w' :
  round_ok ls s r ls' s' ->
  key ls = nth_key (PRNGKey jax 0) k ->
  played s'.1 (obs ls') (S k) rs w' ->
  played s.1 (obs ls) k (r :: rs) w'.
Proof.
  intros Hr Hk Hrest.
  destruct (ro_step _ _ _ _ _ Hr) as (w1 & Hstep & Hoff & Hon).
  rewrite (ro_obs _ _ _ _ _ Hr) in Hrest.
  eapply (played_round _ _ _ _ w1 s'.1); try eassumption.
  - apply Hr.
  - rewrite (ro_sub _ _ _ _ _ Hr), Hk. reflexivity.
  - apply Hr.
  - apply Hr.
  - intros Hno. split; [apply (ro_shot _ _ _ _ _ Hr Hno)|apply (Hoff Hno)].
Qed.

Lemma chain_played ls s rs ls' s' :
  chain ls s rs ls' s' ->
  forall k, key ls = nth_key (PRNGKey jax 0) k ->
    played s.1 (obs ls) k rs s'.1.
Proof.
  induction 1 as [ls s r ls' s' Hr _|ls s r ls1 s1 rs ls' s' Hr _ _ IH];
    intros k Hk.
  - eapply round_played; [exact Hr|exact Hk|]. apply played_none.
  - eapply round_played; [exact Hr|exact Hk|]. apply IH.
    rewrite (ro_key _ _ _ _ _ Hr), Hk. reflexivity.
Qed.

(** *** The whole call *)

(** What [save_video] stores when it goes through. *)
Definition stored (fs : list ndarray) : list (string * list ndarray * Z) :=
  match path_given record_path, imageio host with
  | Some p, Some _ => if bool_decide (fs = []) then [] else [(p, fs, 30%Z)]
  | _, _ => []
  end.

Lemma save_video_ok fs s u s' :
  save_video fs s = (Ok u, s') ->
  exists d, s'.2 = s.2 ++ d
    /\ actions d = [] /\ step_outs d = [] /\ seeds d = [] /\ shots d = []
    /\ videos d = stored fs.
Proof.
  unfold save_video, stored, bindM, call, emit, retM. destruct s as [w tr].
  destruct (path_given record_path) as [p|]; cycle 1.
  { intros [= <- <-]. exists []. cbn. rewrite app_nil_r. repeat split; reflexivity. }
  destruct (imageio host) as [mimsave|]; cycle 1.
  { intros [= <- <-]. exists []. cbn. rewrite app_nil_r. repeat split; reflexivity. }
  destruct (bool_decide (fs = [])).
  { intros [= <- <-]. exists []. cbn. rewrite app_nil_r. repeat split; reflexivity. }
  cbn [fst snd].
  destruct (os_makedirs host (os_path_dirname host p) w) as [[[]|e] w1];
    [|discriminate].
  cbn [fst snd].
  destruct (mimsave p fs 30%Z w1) as [[[]|e] w2]; [|discriminate].
  intros [= <- <-]. cbn [fst snd].
  exists [EvMakedirs (os_path_dirname host p) (Ok tt);
          EvMimsave p fs 30%Z (Ok tt);
          EvPrint ("[video] saved: " +:+ p)].
  rewrite <- !app_assoc. cbn. repeat split; reflexivity.
Qed.

Lemma run_episode_ok w result s' :
  run_episode w = (Ok result, s') ->
  exists ob w0 rs ls s1,
    env_reset env w = (Ok ob, w0)
    /\ chain (initial_state ob) (w0, [EvReset (Ok ob)]) rs ls s1
    /\ save_video (frames ls) s1 = (Ok tt, s')
    /\ result = {| return_ := ep_ret ls; length_ := ep_len ls |}.
Proof.
  unfold run_episode, run_episode_from, bindM, call, retM. cbn [fst snd].
  destruct (env_reset env w) as [[ob|e] w0]; [|discriminate].
  cbn [app].
  destruct (episode_loop (initial_state ob) _) as [[ls|e] s1] eqn:Hloop;
    [|discriminate].
  destruct (save_video (frames ls) s1) as [[[]|e] s2] eqn:Hsave; [|discriminate].
  intros [= <- <-].
  apply episode_loop_chain in Hloop as (rs & Hrs).
  exists ob, w0, rs, ls, s1. auto.
Qed.

(** The log of a call that returned: the reset, the rounds, and what
    [save_video] added. *)
Lemma run_episode_log w result s' :
  run_episode w = (Ok result, s') ->
  exists ob rs (ls : loop_state Key) d,
    s'.2 = EvReset (Ok ob) :: rounds_log rs ++ d
    /\ rs <> []
    /\ (forall (i : nat) r, rs !! i = Some r ->
          (exit_test max_steps (r_sr r) (Z.of_nat (S i)) = true
           <-> S i = length rs))
    /\ result = {| return_ := add_rewards 0 (map r_sr rs);
                   length_ := Z.of_nat (length rs) |}
    /\ map r_sub rs = map (nth_sub (PRNGKey jax 0)) (seq 0 (length rs))
    /\ frames ls = concat (map captured rs)
    /\ actions d = [] /\ step_outs d = [] /\ seeds d = [] /\ shots d = []
    /\ videos d = stored (frames ls).
Proof.
  intros Hrun.
  apply run_episode_ok in Hrun as (ob & w0 & rs & ls & s1 & _ & Hc & Hs & ->).
  apply save_video_ok in Hs as (d & Hd & Ha & Ho & Hk & Hsh & Hv).
  exists ob, rs, ls, d.
  split. { rewrite Hd, (chain_log _ _ _ _ _ Hc), <- app_assoc. reflexivity. }
  split. { eapply chain_nonempty, Hc. }
  split. { intros i r Hi. apply (chain_exit _ _ _ _ _ Hc i r Hi). }
  split. { rewrite (chain_ret _ _ _ _ _ Hc), (chain_len _ _ _ _ _ Hc). reflexivity. }
  split. { apply (chain_seeds _ _ _ _ _ Hc). }
  split. { apply (chain_frames _ _ _ _ _ Hc). }
  repeat split; assumption.
Qed.

(** The frame buffer as the log shows it: the images rendered, kept only
    when the video backend is there. *)
Definition frame_buffer (tr : list (event Key)) : list ndarray :=
  match imageio host with
  | Some _ => shots tr
  | None => []
  end.

Lemma captured_shots rs :
  concat (map captured rs) = frame_buffer (rounds_log rs).
Proof.
  unfold frame_buffer. rewrite shots_rounds. unfold captured.
  destruct (imageio host).
  - reflexivity.
  - induction rs as [|r rs IH]; [reflexivity|].
    cbn [map concat]. rewrite IH. destruct (r_shot r) as [[]|]; reflexivity.
Qed.

(** The projections of the log of a call that returned. *)
Lemma run_episode_views w result s' :
  run_episode w = (Ok result, s') ->
  exists rs : list (round Key),
    rs <> []
    /\ actions s'.2 = map r_action rs
    /\ step_outs s'.2 = map r_sr rs
    /\ seeds s'.2 = map (nth_sub (PRNGKey jax 0)) (seq 0 (length rs))
    /\ videos s'.2 = stored (frame_buffer s'.2)
    /\ (forall (i : nat) r, rs !! i = Some r ->
          (exit_test max_steps (r_sr r) (Z.of_nat (S i)) = true
           <-> S i = length rs))
    /\ result = {| return_ := add_rewards 0 (map r_sr rs);
                   length_ := Z.of_nat (length rs) |}.
Proof.
  intros Hrun.
  apply run_episode_log in Hrun
    as (ob & rs & ls & d & -> & Hne & Hx & -> & Hk & Hf & Ha & Ho & Hs & Hsh & Hv).
  exists rs. split; [assumption|].
  assert (Hfb : frame_buffer (EvReset (Ok ob) :: rounds_log rs ++ d)
                = frames ls).
  { rewrite Hf, captured_shots. unfold frame_buffer.
    destruct (imageio host); [|reflexivity].
    unfold shots in *. cbn [omap list_omap]. rewrite omap_app, Hsh, app_nil_r.
    reflexivity. }
  rewrite Hfb.
  unfold actions, step_outs, seeds, videos in *. cbn [omap list_omap].
  rewrite !omap_app, Ha, Ho, Hs, Hv, !app_nil_r.
  fold (actions (rounds_log rs)). fold (step_outs (rounds_log rs)).
  fold (seeds (rounds_log rs)). fold (videos (rounds_log rs)).
  rewrite actions_rounds, step_outs_rounds, seeds_rounds, videos_rounds, Hk.
  repeat split; try reflexivity; apply Hx; assumption.
Qed.

(** A call that returned, against agent and environment: the reset, then
    the rounds they really give, up to the first whose exit test holds. *)
Lemma run_episode_played w result s' :
  run_episode w = (Ok result, s') ->
  exists ob w0 (rs : list (round Key)) w1 d,
    env_reset env w = (Ok ob, w0)
    /\ played w0 (_resize_top cv2 img_hw ob) 0 rs w1
    /\ rs <> []
    /\ (forall (i : nat) r, rs !! i = Some r ->
          (exit_test max_steps (r_sr r) (Z.of_nat (S i)) = true
           <-> S i = length rs))
    /\ s'.2 = EvReset (Ok ob) :: rounds_log rs ++ d
    /\ actions s'.2 = map r_action rs
    /\ step_outs s'.2 = map r_sr rs
    /\ result = {| return_ := add_rewards 0 (map r_sr rs);
                   length_ := Z.of_nat (length rs) |}.
Proof.
  intros Hrun.
  apply run_episode_ok in Hrun as (ob & w0 & rs & ls & s1 & Hreset & Hc & Hs & ->).
  apply save_video_ok in Hs as (d & Hd & Ha & Ho & _).
  assert (Hlog : s'.2 = EvReset (Ok ob) :: rounds_log rs ++ d).
  { rewrite Hd, (chain_log _ _ _ _ _ Hc), <- app_assoc. reflexivity. }
  exists ob, w0, rs, s1.1, d.
  split; [exact Hreset|].
  split. { apply (chain_played _ _ _ _ _ Hc 0). reflexivity. }
  split. { eapply chain_nonempty, Hc. }
  split. { intros i r Hi. apply (chain_exit _ _ _ _ _ Hc i r Hi). }
  split; [exact Hlog|].
  split.
  { rewrite Hlog. unfold actions in *. cbn [omap list_omap].
    rewrite omap_app, Ha, app_nil_r. apply actions_rounds. }
  split.
  { rewrite Hlog. unfold step_outs in *. cbn [omap list_omap].
    rewrite omap_app, Ho, app_nil_r. apply step_outs_rounds. }
  rewrite (chain_ret _ _ _ _ _ Hc), (chain_len _ _ _ _ _ Hc). reflexivity.
Qed.

(** *** Properties of a call that returns *)

(** C2: a call of [run_episode] that returns has reset the environment
    and then made exactly the rounds that agent and environment give from
    there, up to the first round whose exit test holds; the actions and step
    results in its log are the ones of these rounds; it reports as [return_]
    the rewards that these [env.step] calls returned, added up in order
    starting from [0.0], and as [length_] the number of these calls. *)
Theorem run_episode_return_length w result w' tr :
  run_episode w = (Ok result, (w', tr)) ->
  (exists ob w0 (rs : list (round Key)) w1,
     env_reset env w = (Ok ob, w0)
     /\ played w0 (_resize_top cv2 img_hw ob) 0 rs w1
     /\ (forall (i : nat) r, rs !! i = Some r ->
           (exit_test max_steps (r_sr r) (Z.of_nat (S i)) = true
            <-> S i = length rs))
     /\ actions tr = map r_action rs
     /\ step_outs tr = map r_sr rs
     /\ return_ result = add_rewards 0 (map r_sr rs)
     /\ length_ result = Z.of_nat (length rs))
  /\ return_ result = add_rewards 0 (step_outs tr)
  /\ length_ result = Z.of_nat (length (actions tr))
  /\ length (step_outs tr) = length (actions tr).
Proof.
  intros Hrun.
  apply run_episode_played in Hrun
    as (ob & w0 & rs & w1 & d & Hreset & Hp & _ & Hx & _ & Ha & Ho & ->).
  cbn [fst snd] in Ha, Ho.
  split.
  - exists ob, w0, rs, w1. rewrite Ha, Ho. repeat split; auto; apply Hx; auto.
  - rewrite Ha, Ho, !length_map. repeat split; reflexivity.
Qed.


(** C10: a call that returns has, right after the reset and before any
    exit test, asked [agent.sample_actions] on the batched, resized
    observation of the reset with the first seed of the stream, and
    submitted slice [0] of the answer to [env.step] in the world the reset
    left; these are the first three entries of its log, and its length is at
    least one, whatever [max_steps] is and whatever the environment
    answered. *)
Theorem run_episode_first_round w result w' tr :
  run_episode w = (Ok result, (w', tr)) ->
  (1 <= length_ result)%Z
  /\ exists ob w0 batched sampled action sr w1 rest,
       env_reset env w = (Ok ob, w0)
       /\ _obs_to_batched np_coerce (_resize_top cv2 img_hw ob) = Ok batched
       /\ sample_actions agent batched (split jax (PRNGKey jax 0)).2 = Ok sampled
       /\ res_bind (asarray np_coerce sampled) index0 = Ok action
       /\ env_step env action w0 = (Ok sr, w1)
       /\ tr = EvReset (Ok ob)
               :: EvSample batched (split jax (PRNGKey jax 0)).2 (Ok sampled)
               :: EvStep action (Ok sr) :: rest.
Proof.
  intros Hrun.
  apply run_episode_played in Hrun
    as (ob & w0 & rs & w2 & d & Hreset & Hp & Hne & _ & Htr & _ & _ & ->).
  cbn [fst snd] in Htr. destruct rs as [|r rs]; [congruence|].
  split; [cbn; lia|].
  inversion Hp as [|? ? ? ? w1 w3 ? ? Hb Hsub Hs Ha Hstep _ _ _]; subst.
  exists ob, w0, (r_batched r), (r_sampled r), (r_action r), (r_sr r), w1.
  eexists. repeat split; try eassumption.
  - rewrite Hsub in Hs. exact Hs.
  - unfold rounds_log, round_log. cbn [map concat app].
    rewrite Hsub, <- !app_assoc. reflexivity.
Qed.


(** *** The seeds of any call, returning or not *)

Lemma seeds_app (tr1 tr2 : list (event Key)) :
  seeds (tr1 ++ tr2) = seeds tr1 ++ seeds tr2.
Proof. apply omap_app. Qed.

Lemma seeds_snoc (tr : list (event Key)) e :
  seeds (tr ++ [e])
  = seeds tr ++ match e with EvSample _ k _ => [k] | _ => [] end.
Proof.
  unfold seeds. rewrite omap_app. f_equal. destruct e; reflexivity.
Qed.

Lemma capture_seeds fs s : seeds (capture fs s).2.2 = seeds s.2.
Proof.
  unfold capture, bindM, call, retM. destruct s as [w tr].
  destruct render; [|reflexivity]. cbn [fst snd].
  destruct (env_render env w) as [[fr|e] w']; cbn [fst snd];
    rewrite seeds_snoc, app_nil_r; reflexivity.
Qed.

(** A round hands at most one seed to the agent: the one split off the
    current key. *)
Lemma iteration_seeds ls s :
  exists n, seeds (iteration ls s).2.2
            = seeds s.2 ++ map (nth_sub (key ls)) (seq 0 n).
Proof.
  unfold iteration, bindM, lift, query, call, retM. destruct s as [w tr].
  cbn [fst snd].
  destruct (_obs_to_batched np_coerce (obs ls)) as [batched|].
  2: { exists 0. cbn. rewrite app_nil_r. reflexivity. }
  assert (H0 : nth_sub (key ls) 0 = (split jax (key ls)).2) by reflexivity.
  destruct (split jax (key ls)) as [k' sub]. cbn [fst snd] in *.
  exists 1. cbn [seq map]. rewrite H0.
  destruct (sample_actions agent batched sub) as [sampled|].
  2: { cbn [fst snd]. rewrite seeds_snoc. reflexivity. }
  destruct (asarray np_coerce sampled) as [arr|].
  2: { cbn [fst snd]. rewrite seeds_snoc. reflexivity. }
  destruct (index0 arr) as [action|].
  2: { cbn [fst snd]. rewrite seeds_snoc. reflexivity. }
  destruct (env_step env action w) as [[sr|e] w1].
  2: { cbn [fst snd]. rewrite !seeds_snoc, app_nil_r. reflexivity. }
  match goal with
  | |- context [capture ?fs ?st] =>
      pose proof (capture_seeds fs st) as Hc;
      destruct (capture fs st) as [[fs'|e] s1]
  end; cbn [fst snd] in *; rewrite Hc, !seeds_snoc, app_nil_r; reflexivity.
Qed.

Lemma loop_seeds ls s out :
  loop_rel max_steps iteration ls s out ->
  exists n, seeds out.2.2 = seeds s.2 ++ map (nth_sub (key ls)) (seq 0 n).
Proof.
  induction 1 as [ls s e s1 Hb|ls s ls1 t u s1 Hb Hx|ls s ls1 t u s1 out Hb Hx _ IH].
  - destruct (iteration_seeds ls s) as (n & Hn). rewrite Hb in Hn. eauto.
  - destruct (iteration_seeds ls s) as (n & Hn). rewrite Hb in Hn. eauto.
  - apply iteration_ok in Hb as (r & Hr & _).
    destruct IH as (n & Hn). exists (S n).
    rewrite Hn, (ro_log _ _ _ _ _ Hr), seeds_app.
    replace (seeds (round_log r)) with [nth_sub (key ls) 0].
    2: { change (nth_sub (key ls) 0) with (split jax (key ls)).2.
         rewrite <- (ro_sub _ _ _ _ _ Hr).
         unfold round_log. destruct (r_shot r); reflexivity. }
    rewrite <- app_assoc. f_equal. cbn [seq map app]. f_equal.
    rewrite <- seq_shift, map_map, (ro_key _ _ _ _ _ Hr).
    apply map_ext. intros i. symmetry. apply nth_sub_S.
Qed.

Lemma save_video_seeds fs s : seeds (save_video fs s).2.2 = seeds s.2.
Proof.
  unfold save_video, bindM, call, emit, retM. destruct s as [w tr].
  destruct (path_given record_path) as [p|]; [|reflexivity].
  destruct (imageio host) as [mimsave|]; [|reflexivity].
  destruct (bool_decide (fs = [])); [reflexivity|]. cbn [fst snd].
  destruct (os_makedirs host (os_path_dirname host p) w) as [[[]|e] w1];
    cbn [fst snd]; [|rewrite seeds_snoc, app_nil_r; reflexivity].
  destruct (mimsave p fs 30%Z w1) as [[[]|e] w2]; cbn [fst snd];
    rewrite !seeds_snoc, !app_nil_r; reflexivity.
Qed.

(** Whatever the agent, the environment and the options, the seeds of a
    call are an initial stretch of one stream, fixed by [PRNGKey(0)]. *)
Lemma run_episode_seeds w :
  exists n, seeds (run_episode w).2.2
            = map (nth_sub (PRNGKey jax 0)) (seq 0 n).
Proof.
  unfold run_episode, run_episode_from, bindM, call, retM. cbn [fst snd].
  destruct (env_reset env w) as [[ob|e] w0]; cbn [app].
  2: { exists 0. reflexivity. }
  pose proof (while_true_rel max_steps iteration iteration_ep_len
                (initial_state ob) (w0, [EvReset (Ok ob)])) as Hrel.
  apply loop_seeds in Hrel as (n & Hn). fold (episode_loop (initial_state ob)) in Hn.
  cbn [fst snd] in Hn.
  destruct (episode_loop (initial_state ob) _) as [[ls|e] s1]; cbn [fst snd] in *.
  2: { exists n. exact Hn. }
  pose proof (save_video_seeds (frames ls) s1) as Hs.
  destruct (save_video (frames ls) s1) as [[[]|e] s2]; cbn [fst snd] in *;
    exists n; rewrite Hs; exact Hn.
Qed.

(** *** A malformed observation in the middle of an episode *)

(** [reaches ls s ls' s']: started with locals [ls] in state [s], the loop
    comes back to its head with locals [ls'] in state [s']. *)
Inductive reaches : loop_state Key -> state -> loop_state Key -> state -> Prop :=
| reaches_here ls s : reaches ls s ls s
| reaches_round ls s ls1 term trunc s1 ls' s' :
    iteration ls s = (Ok (ls1, term, trunc), s1) ->
    term || trunc || (ep_len ls1 >=? max_steps)%Z = false ->
    reaches ls1 s1 ls' s' ->
    reaches ls s ls' s'.

Lemma reaches_loop ls s ls' s' :
  reaches ls s ls' s' -> episode_loop ls s = episode_loop ls' s'.
Proof.
  induction 1 as [|ls s ls1 t u s1 ls' s' Hb Hx _ IH]; [reflexivity|].
  rewrite <- IH.
  eapply (loop_rel_functional max_steps iteration).
  - apply while_true_rel.
  - eapply loop_again; [exact Hb|exact Hx|apply while_true_rel].
Qed.

Lemma iteration_malformed ls s e :
  _obs_to_batched np_coerce (obs ls) = Raise e -> iteration ls s = (Raise e, s).
Proof.
  intros Hbad. unfold iteration, bindM, lift. rewrite Hbad. reflexivity.
Qed.

Lemma episode_loop_malformed ls s e :
  _obs_to_batched np_coerce (obs ls) = Raise e ->
  episode_loop ls s = (Raise e, s).
Proof.
  intros Hbad.
  eapply (loop_rel_functional max_steps iteration).
  - apply while_true_rel.
  - apply loop_raise, iteration_malformed, Hbad.
Qed.

Lemma run_episode_loop_raise w ob w0 e s' :
  env_reset env w = (Ok ob, w0) ->
  episode_loop (initial_state ob) (w0, [EvReset (Ok ob)]) = (Raise e, s') ->
  run_episode w = (Raise e, s').
Proof.
  intros Hreset Hloop.
  unfold run_episode, run_episode_from, bindM, call. cbn [fst snd].
  rewrite Hreset. cbn [app]. rewrite Hloop. reflexivity.
Qed.

(** C7, as amended: an observation with a leaf whose conversion by
    [np.asarray] raises makes the batching adapter raise; what it raises is
    the exception of the conversion of one of the leaves, not an error of its
    own; and when this happens at the head of a round, for the observation of
    the reset or of any later step, [run_episode] ends with that exception,
    uncaught, without a further call. *)
Theorem malformed_observation_propagates :
  (forall ob x e, leaf_of ob x -> asarray np_coerce x = Raise e ->
     exists e', _obs_to_batched np_coerce ob = Raise e')
  /\ (forall ob e, _obs_to_batched np_coerce ob = Raise e ->
        exists x, leaf_of ob x /\ asarray np_coerce x = Raise e)
  /\ (forall w ob w0 ls s e,
        env_reset env w = (Ok ob, w0) ->
        reaches (initial_state ob) (w0, [EvReset (Ok ob)]) ls s ->
        _obs_to_batched np_coerce (obs ls) = Raise e ->
        run_episode w = (Raise e, s)).
Proof.
  split; [apply obs_to_batched_fails|]. split; [apply obs_to_batched_raise|].
  intros w ob w0 ls s e Hreset Hreach Hbad.
  apply (run_episode_loop_raise w ob w0 e s Hreset).
  rewrite (reaches_loop _ _ _ _ Hreach).
  apply episode_loop_malformed, Hbad.
Qed.

End Runner.


(** ** Seeds across calls *)

Lemma stream_lookup {Key : Type} (f : nat -> Key) (n k : nat) x :
  map f (seq 0 n) !! k = Some x -> x = f k.
Proof.
  intros Hk. apply list_lookup_fmap_Some in Hk as (i & -> & Hi).
  apply lookup_seq in Hi as [-> _]. reflexivity.
Qed.

(** C9: the root key of [run_episode] is [PRNGKey(0)], not an argument.  So
    for any two calls, with whatever agents, environments, worlds and
    options, the seed handed to [sample_actions] at a step that both calls
    reach is the same in both: it is the seed at that place of the one stream
    that [PRNGKey(0)] and [split] fix. *)
Theorem seeds_agree_across_calls {Key World1 World2 : Type} (jax : Jax Key)
    np1 cv1 (host1 : Host World1) agent1 env1 render1 path1 max1 hw1 w1
    np2 cv2 (host2 : Host World2) agent2 env2 render2 path2 max2 hw2 w2
    (k : nat) (x y : Key) :
  seeds (run_episode jax np1 cv1 host1 agent1 env1 render1 path1 max1 hw1 w1).2.2
    !! k = Some x ->
  seeds (run_episode jax np2 cv2 host2 agent2 env2 render2 path2 max2 hw2 w2).2.2
    !! k = Some y ->
  x = y /\ x = nth_sub jax (PRNGKey jax 0) k.
Proof.
  intros H1 H2.
  destruct (run_episode_seeds jax np1 cv1 host1 agent1 env1 render1 path1 max1 hw1 w1)
    as (n1 & E1).
  destruct (run_episode_seeds jax np2 cv2 host2 agent2 env2 render2 path2 max2 hw2 w2)
    as (n2 & E2).
  rewrite E1 in H1. rewrite E2 in H2.
  apply stream_lookup in H1, H2. split; congruence.
Qed.


(** ** Two runs against collaborators that answer alike *)

Section Determinism.

Context {Key World : Type}.
Variable jax : Jax Key.
Variable np_coerce : pyval -> res ndarray.
Variable cv2 : option cv2_resize_t.
Variable agent : Agent Key.
Variable render : bool.
Variable record_path : option string.
Variable max_steps : Z.
Variable img_hw : Z * Z.

(** The two runs: each has its own environment and host, and starts in its
    own world. *)
Variables host1 host2 : Host World.
Variables env1 env2 : Env World.

(** [R w1 w2]: the world of the first run and the world of the second are
    in states from which the collaborators answer alike. *)
Variable R : World -> World -> Prop.

Definition alike {A : Type} (op1 op2 : World -> res A * World) : Prop :=
  forall w1 w2, R w1 w2 ->
    (op1 w1).1 = (op2 w2).1 /\ R (op1 w1).2 (op2 w2).2.

(** Same environment behaviour, same host behaviour. *)
Record same_behaviour : Prop := {
  sb_reset : alike (env_reset env1) (env_reset env2);
  sb_step : forall a, alike (env_step env1 a) (env_step env2 a);
  sb_render : alike (env_render env1) (env_render env2);
  sb_dirname : forall p, os_path_dirname host1 p = os_path_dirname host2 p;
  sb_makedirs : forall d, alike (os_makedirs host1 d) (os_makedirs host2 d);
  sb_imageio :
    match imageio host1, imageio host2 with
    | Some f, Some g => forall p fs fps, alike (f p fs fps) (g p fs fps)
    | None, None => True
    | _, _ => False
    end
}.

Definition related (s1 s2 : @state Key World) : Prop :=
  R s1.1 s2.1 /\ s1.2 = s2.2.

(** Two computations that, from related states, give the same outcome and
    the same log, and leave related states. *)
Definition msim {A : Type} (m1 m2 : @M Key World A) : Prop :=
  forall s1 s2, related s1 s2 ->
    (m1 s1).1 = (m2 s2).1 /\ related (m1 s1).2 (m2 s2).2.

Lemma msim_ret {A : Type} (a : A) : msim (retM a) (retM a).
Proof. intros s1 s2 Hs. split; [reflexivity|exact Hs]. Qed.

Lemma msim_lift {A : Type} (r : res A) : msim (lift r) (lift r).
Proof. intros s1 s2 Hs. split; [reflexivity|exact Hs]. Qed.

Lemma msim_query {A : Type} (r : res A) ev : msim (query r ev) (query r ev).
Proof.
  intros s1 s2 [Hw Ht]. unfold query. cbn. rewrite Ht.
  split; [reflexivity|]. split; [exact Hw|reflexivity].
Qed.

Lemma msim_emit e : msim (emit e) (emit e).
Proof.
  intros s1 s2 [Hw Ht]. unfold emit. cbn. rewrite Ht.
  split; [reflexivity|]. split; [exact Hw|reflexivity].
Qed.

Lemma msim_call {A : Type} (op1 op2 : World -> res A * World) ev :
  alike op1 op2 -> msim (call op1 ev) (call op2 ev).
Proof.
  intros Hop s1 s2 [Hw Ht]. unfold call.
  destruct (Hop _ _ Hw) as [Hr Hw'].
  destruct (op1 s1.1) as [r1 w1'], (op2 s2.1) as [r2 w2']. cbn in *.
  subst r2. rewrite Ht. split; [reflexivity|]. split; [exact Hw'|reflexivity].
Qed.

Lemma msim_bind {A B : Type} (m1 m2 : M A) (k1 k2 : A -> M B) :
  msim m1 m2 -> (forall a, msim (k1 a) (k2 a)) ->
  msim (bindM m1 k1) (bindM m2 k2).
Proof.
  intros Hm Hk s1 s2 Hs. unfold bindM.
  destruct (Hm _ _ Hs) as [Hr Hs'].
  destruct (m1 s1) as [[a1|e1] s1'], (m2 s2) as [[a2|e2] s2']; cbn in *;
    try discriminate.
  - injection Hr as ->. apply Hk, Hs'.
  - injection Hr as ->. split; [reflexivity|exact Hs'].
Qed.

Hypothesis Hsame : same_behaviour.

Lemma imageio_present :
  forall (A : Type) (a b : A),
    match imageio host1 with Some _ => a | None => b end
    = match imageio host2 with Some _ => a | None => b end.
Proof.
  intros A a b. pose proof (sb_imageio Hsame) as H.
  destruct (imageio host1), (imageio host2); tauto.
Qed.

Lemma msim_capture fs :
  msim (capture host1 env1 render fs) (capture host2 env2 render fs).
Proof.
  unfold capture. destruct render; [|apply msim_ret].
  apply msim_bind; [apply msim_call, (sb_render Hsame)|].
  intros frame.
  replace (match frame, imageio host1 with
           | PyArr a, Some _ => fs ++ [a]
           | _, _ => fs
           end)
    with (match frame, imageio host2 with
          | PyArr a, Some _ => fs ++ [a]
          | _, _ => fs
          end).
  - apply msim_ret.
  - destruct frame; try reflexivity. symmetry. apply imageio_present.
Qed.

Lemma msim_iteration ls :
  msim (iteration jax np_coerce cv2 host1 agent env1 render img_hw ls)
       (iteration jax np_coerce cv2 host2 agent env2 render img_hw ls).
Proof.
  unfold iteration.
  apply msim_bind; [apply msim_lift|]. intros batched.
  destruct (split jax (key ls)) as [key' sub].
  apply msim_bind; [apply msim_query|]. intros sampled.
  apply msim_bind; [apply msim_lift|]. intros arr.
  apply msim_bind; [apply msim_lift|]. intros action.
  apply msim_bind; [apply msim_call, (sb_step Hsame)|]. intros sr.
  apply msim_bind; [apply msim_capture|]. intros fs.
  apply msim_ret.
Qed.

Lemma loop_sim ls s1 out1 :
  loop_rel max_steps
    (iteration jax np_coerce cv2 host1 agent env1 render img_hw) ls s1 out1 ->
  forall s2 out2,
    related s1 s2 ->
    loop_rel max_steps
      (iteration jax np_coerce cv2 host2 agent env2 render img_hw) ls s2 out2 ->
    out1.1 = out2.1 /\ related out1.2 out2.2.
Proof.
  induction 1 as [ls s1 e s1' Hb|ls s1 ls' t u s1' Hb Hx
                 |ls s1 ls' t u s1' out1 Hb Hx _ IH];
    intros s2 out2 Hs H2;
    destruct (msim_iteration ls _ _ Hs) as [Hr Hs'];
    rewrite Hb in Hr, Hs'; cbn [fst snd] in Hr, Hs';
    inversion H2 as [? ? ? ? Hb2|? ? ? ? ? ? Hb2 Hx2|? ? ? ? ? ? ? Hb2 Hx2 Hrest];
    subst; rewrite Hb2 in Hr, Hs'; cbn [fst snd] in Hr, Hs';
    try discriminate; injection Hr as Hr; subst.
  - split; [reflexivity|exact Hs'].
  - split; [reflexivity|exact Hs'].
  - congruence.
  - congruence.
  - eapply IH; eassumption.
Qed.

Lemma msim_episode_loop ls :
  msim (episode_loop jax np_coerce cv2 host1 agent env1 render max_steps img_hw ls)
       (episode_loop jax np_coerce cv2 host2 agent env2 render max_steps img_hw ls).
Proof.
  intros s1 s2 Hs. eapply loop_sim; [|exact Hs|]; apply while_true_rel.
Qed.

Lemma msim_save_video fs :
  msim (save_video host1 record_path fs) (save_video host2 record_path fs).
Proof.
  unfold save_video. pose proof (sb_imageio Hsame) as Hio.
  destruct (path_given record_path) as [p|]; [|apply msim_ret].
  destruct (imageio host1) as [f|], (imageio host2) as [g|];
    try tauto; [|apply msim_ret].
  destruct (bool_decide (fs = [])); [apply msim_ret|].
  rewrite (sb_dirname Hsame).
  apply msim_bind; [apply msim_call, (sb_makedirs Hsame)|]. intros _.
  apply msim_bind; [apply msim_call, Hio|]. intros _.
  apply msim_emit.
Qed.

(** C3: the root key is fixed, so with the same policy, and with
    environments and hosts that answer alike from the worlds the two runs
    start in, two runs of [run_episode] make the same calls with the same
    arguments, in particular they submit the same actions bit for bit, and
    they end with the same outcome, the same [EpisodeResult] when they
    return. *)
Theorem run_episode_deterministic w1 w2 :
  R w1 w2 ->
  (run_episode jax np_coerce cv2 host1 agent env1 render record_path
     max_steps img_hw w1).1
  = (run_episode jax np_coerce cv2 host2 agent env2 render record_path
       max_steps img_hw w2).1
  /\ (run_episode jax np_coerce cv2 host1 agent env1 render record_path
        max_steps img_hw w1).2.2
     = (run_episode jax np_coerce cv2 host2 agent env2 render record_path
          max_steps img_hw w2).2.2
  /\ actions (run_episode jax np_coerce cv2 host1 agent env1 render record_path
                max_steps img_hw w1).2.2
     = actions (run_episode jax np_coerce cv2 host2 agent env2 render record_path
                  max_steps img_hw w2).2.2
  /\ R (run_episode jax np_coerce cv2 host1 agent env1 render record_path
          max_steps img_hw w1).2.1
       (run_episode jax np_coerce cv2 host2 agent env2 render record_path
          max_steps img_hw w2).2.1.
Proof.
  intros Hw.
  assert (Hrun : msim
    (run_episode_from jax np_coerce cv2 host1 agent env1 render record_path
       max_steps img_hw)
    (run_episode_from jax np_coerce cv2 host2 agent env2 render record_path
       max_steps img_hw)).
  { unfold run_episode_from.
    apply msim_bind; [apply msim_call, (sb_reset Hsame)|]. intros ob.
    apply msim_bind; [apply msim_episode_loop|]. intros ls.
    apply msim_bind; [apply msim_save_video|]. intros _.
    apply msim_ret. }
  unfold run_episode.
  destruct (Hrun (w1, []) (w2, [])) as (Hout & Hworld & Hlog).
  { split; [exact Hw|reflexivity]. }
  rewrite Hlog. auto.
Qed.

End Determinism.


(** ** Concrete collaborators

    Small stand-ins for the collaborators, on which the statements above are
    run: they fix what the parameters of the development are in the examples
    and nothing else. *)

(** The defaults of [run_episode]'s signature. *)
Definition default_max_steps : Z := 1000.
Definition default_img_hw : Z * Z := (240, 320)%Z.

(** Keys as places in the tree of splits: [split] gives the two children. *)
Definition tree_jax : Jax positive := {|
  PRNGKey := fun seed => Pos.succ (Z.to_pos seed);
  split := fun k => (xO k, xI k)
|}.

(** numpy's conversion on the scalars of the examples: an integer becomes a
    zero-dimensional integer array, a string a zero-dimensional array of
    unicode, any other object a zero-dimensional array of objects. *)
Definition np_like (x : pyval) : res ndarray :=
  match x with
  | PyArr a => Ok a
  | PyInt z => Ok (NdArray Int64 [] [z])
  | PyStr s => Ok (NdArray Unicode [] [Z.of_nat (String.length s)])
  | PyObj id => Ok (NdArray Object [] [Z.of_nat id])
  | _ => Ok (NdArray Object [] [])
  end.

(** The same, for objects whose [__array__] raises. *)
Definition np_strict (x : pyval) : res ndarray :=
  match x with
  | PyObj _ => Raise (Exc "TypeError")
  | _ => np_like x
  end.

(** A resize that returns a black image of the size asked for, and fails on
    an empty size as OpenCV does. *)
Definition black_resize : cv2_resize_t :=
  fun img '(W, H) _ =>
    if ((0 <? W) && (0 <? H))%Z then
      Ok (NdArray (arr_dtype img)
            (Z.to_nat H :: Z.to_nat W :: drop 2 (shape img))
            (repeat 0%Z (numel (Z.to_nat H :: Z.to_nat W :: drop 2 (shape img)))))
    else Raise (Exc "cv2.error").

Lemma black_resize_size : resizes_to_size black_resize.
Proof.
  intros img W H i out. unfold black_resize.
  destruct ((0 <? W) && (0 <? H))%Z eqn:Hpos; [|discriminate].
  intros [= <-]. apply andb_true_iff in Hpos as [HW HH].
  apply Z.ltb_lt in HW, HH. unfold resolution. cbn.
  rewrite !Z2Nat.id by lia. reflexivity.
Qed.

Definition joints : ndarray := NdArray Float32 [2] [0; 0]%Z.

Definition small_image : ndarray :=
  NdArray UInt8 [1; 2; 3] [10; 20; 30; 40; 50; 60]%Z.

(** An observation with a camera image of one row and two columns. *)
Definition camera_obs : pyval :=
  PyDict {[ "agent_pos" := PyArr joints;
            "pixels" := PyDict {[ "top" := PyArr small_image ]} ]}.

(** An agent that always answers with the same batch of one action. *)
Definition still_agent : Agent positive := {|
  sample_actions := fun _ _ => Ok (PyArr (expand_leading joints))
|}.

(** An environment whose world is the number of steps since the reset: the
    step numbered [stop] reports termination (none does when [stop] is [0]),
    the step numbered [n] pays [pay n], and [render] gives an image. *)
Definition timer_env (stop : nat) (pay : nat -> float) : Env nat := {|
  env_reset := fun _ => (Ok (PyArr joints), 0);
  env_step := fun _ n =>
    (Ok (StepResult (PyArr joints) (pay (S n)) (S n =? stop) false), S n);
  env_render := fun n => (Ok (PyArr small_image), n)
|}.

(** The same environment, with its step counter kept a hundred ahead. *)
Definition shifted_env (stop : nat) (pay : nat -> float) : Env nat := {|
  env_reset := fun _ => (Ok (PyArr joints), 100);
  env_step := fun _ n =>
    (Ok (StepResult (PyArr joints) (pay (S (n - 100))) (S (n - 100) =? stop) false),
     S n);
  env_render := fun n => (Ok (PyArr small_image), n)
|}.

(** A host with the video backend, where nothing fails. *)
Definition plain_host : Host nat := {|
  imageio := Some (fun _ _ _ n => (Ok tt, n));
  os_path_dirname := fun p => p;
  os_makedirs := fun _ n => (Ok tt, n)
|}.

(** Half a point for each of the first twenty-five steps. *)
Definition half_for_25 (n : nat) : float :=
  if n <=? 25 then 0.5%float else 0%float.

Definition flat_pay (n : nat) : float := 1%float.

(** [run_episode] on the stand-ins, started in world [0]. *)
Definition play (env : Env nat) (render : bool) (record_path : option string)
    (max_steps : Z) : res EpisodeResult * (nat * list (event positive)) :=
  run_episode tree_jax np_like None plain_host still_agent env
    render record_path max_steps default_img_hw 0.


(** ** The statements on concrete runs *)

(** The scenario of the specification: termination at the thirty-seventh
    step with rewards that add up to 12.5.  The call returns [{12.5, 37}],
    and these are the sum and the number of the thirty-seven rounds that the
    agent and this environment give from the reset. *)
Lemma run_episode_return_length_witness :
  (play (timer_env 37 half_for_25) false None default_max_steps).1
  = Ok {| return_ := 12.5; length_ := 37 |}
  /\ exists (rs : list (round positive)) w1,
       played tree_jax np_like None still_agent (timer_env 37 half_for_25)
         false default_img_hw 0 (PyArr joints) 0 rs w1
       /\ length rs = 37
       /\ add_rewards 0 (map r_sr rs) = 12.5%float
       /\ step_outs (play (timer_env 37 half_for_25) false None
                       default_max_steps).2.2
          = map r_sr rs.
Proof.
  split; [vm_compute; reflexivity|].
  destruct (run_episode_return_length tree_jax np_like None plain_host still_agent
              (timer_env 37 half_for_25) false None default_max_steps
              default_img_hw 0 {| return_ := 12.5; length_ := 37 |}
              (play (timer_env 37 half_for_25) false None default_max_steps).2.1
              (play (timer_env 37 half_for_25) false None default_max_steps).2.2)
    as ((ob & w0 & rs & w1 & Hreset & Hp & _ & _ & Ho & Hret & Hlen) & _).
  - vm_compute. reflexivity.
  - cbn in Hreset. injection Hreset as <- <-.
    cbn [return_ length_] in Hret, Hlen.
    exists rs, w1. split; [exact Hp|]. split; [lia|].
    split; [symmetry; exact Hret|exact Ho].
Defined.



(** A ceiling of zero and an environment that reports termination at once:
    the call still makes one round. *)
Lemma run_episode_first_round_witness :
  (1 <= length_ {| return_ := 1; length_ := 1 |})%Z
  /\ exists ob w0 batched sampled action sr w1 rest,
       env_reset (timer_env 1 flat_pay) 0 = (Ok ob, w0)
       /\ _obs_to_batched np_like (_resize_top None default_img_hw ob) = Ok batched
       /\ sample_actions still_agent batched
            (split tree_jax (PRNGKey tree_jax 0)).2 = Ok sampled
       /\ res_bind (asarray np_like sampled) index0 = Ok action
       /\ env_step (timer_env 1 flat_pay) action w0 = (Ok sr, w1)
       /\ (play (timer_env 1 flat_pay) false None 0).2.2
          = EvReset (Ok ob)
            :: EvSample batched (split tree_jax (PRNGKey tree_jax 0)).2 (Ok sampled)
            :: EvStep action (Ok sr) :: rest.
Proof.
  apply (run_episode_first_round tree_jax np_like None plain_host still_agent
           (timer_env 1 flat_pay) false None 0 default_img_hw 0
           {| return_ := 1; length_ := 1 |}
           (play (timer_env 1 flat_pay) false None 0).2.1
           (play (timer_env 1 flat_pay) false None 0).2.2).
  vm_compute. reflexivity.
Defined.



(** Two calls that differ in environment, ceiling and rendering hand the
    same seed to the agent at their third step. *)
Lemma seeds_agree_across_calls_witness :
  (17%positive = 17%positive)
  /\ 17%positive = nth_sub tree_jax (PRNGKey tree_jax 0) 2.
Proof.
  apply (seeds_agree_across_calls tree_jax
           np_like None plain_host still_agent (timer_env 37 half_for_25)
           false None default_max_steps default_img_hw 0
           np_strict (Some black_resize) plain_host still_agent (timer_env 0 flat_pay)
           true (Some "videos/eval.mp4") 5%Z (2, 2)%Z 7
           2 17%positive 17%positive);
    vm_compute; reflexivity.
Defined.

Lemma camera_obs_valid : valid_obs camera_obs.
Proof.
  apply valid_dict. intros k v Hk.
  apply lookup_insert_Some in Hk as [[_ <-]|[_ Hk]].
  - apply valid_arr. reflexivity.
  - apply lookup_singleton_Some in Hk as [_ <-].
    apply valid_dict. intros k' v' Hk'.
    apply lookup_singleton_Some in Hk' as [_ <-].
    apply valid_arr. reflexivity.
Qed.

(** The camera observation is batched leaf by leaf. *)
Lemma obs_to_batched_valid_witness :
  exists ob', _obs_to_batched np_strict camera_obs = Ok ob'
              /\ batched_as camera_obs ob'.
Proof.
  apply (obs_to_batched_valid np_strict camera_obs). exact camera_obs_valid.
Defined.

Example obs_to_batched_camera :
  _obs_to_batched np_strict camera_obs
  = Ok (PyDict {[ "agent_pos" := PyArr (NdArray Float32 [1; 2] [0; 0]%Z);
                  "pixels" := PyDict {[ "top" :=
                     PyArr (NdArray UInt8 [1; 1; 2; 3]
                              [10; 20; 30; 40; 50; 60]%Z) ]} ]}).
Proof. vm_compute. reflexivity. Qed.

(** The camera image, one row by two columns, resized to two by two. *)
Lemma resize_top_spec_witness :
  top_image (_resize_top (Some black_resize) (2, 2)%Z camera_obs)
  = Some (PyArr (NdArray UInt8 [2; 2; 3] (repeat 0%Z 12)))
  /\ resolution (NdArray UInt8 [2; 2; 3] (repeat 0%Z 12)) = [2; 2]%Z
  /\ same_except_top camera_obs
       (_resize_top (Some black_resize) (2, 2)%Z camera_obs).
Proof.
  destruct (resize_top_spec (Some black_resize) 2 2 camera_obs)
    as (_ & Happlied & _).
  - intros resize [= <-]. exact black_resize_size.
  - apply (Happlied black_resize small_image).
    + reflexivity.
    + vm_compute. reflexivity.
    + reflexivity.
    + vm_compute. discriminate.
    + vm_compute. reflexivity.
Defined.

(** C7 as stated fails twice over.  A string leaf cannot become a numeric
    array, yet numpy converts it and the adapter returns; and when a
    conversion does raise, the adapter raises numpy's exception, here a
    [TypeError], not a [MalformedObservation]. *)
Lemma malformed_observation_counterexample :
  (leaf_of (PyDict {[ "state" := PyStr "abc" ]}) (PyStr "abc")
   /\ (exists a, asarray np_like (PyStr "abc") = Ok a
                 /\ numeric (arr_dtype a) = false)
   /\ _obs_to_batched np_like (PyDict {[ "state" := PyStr "abc" ]})
      = Ok (PyDict {[ "state" := PyArr (NdArray Unicode [1] [3%Z]) ]}))
  /\ (leaf_of (PyDict {[ "state" := PyObj 0 ]}) (PyObj 0)
      /\ asarray np_strict (PyObj 0) = Raise (Exc "TypeError")
      /\ _obs_to_batched np_strict (PyDict {[ "state" := PyObj 0 ]})
         = Raise (Exc "TypeError")
      /\ Exc "TypeError" <> Exc "MalformedObservation").
Proof.
  split.
  - split.
    { eapply leaf_dict; [apply lookup_singleton_eq|]. apply leaf_here. reflexivity. }
    split; [eexists; split; reflexivity|]. vm_compute. reflexivity.
  - split.
    { eapply leaf_dict; [apply lookup_singleton_eq|]. apply leaf_here. reflexivity. }
    split; [reflexivity|]. split; [vm_compute; reflexivity|discriminate].
Qed.

(** An environment whose sensor breaks after the first step: from then on
    its observation is an object that numpy cannot convert. *)
Definition breaking_env : Env nat := {|
  env_reset := fun _ => (Ok (PyArr joints), 0);
  env_step := fun _ n => (Ok (StepResult (PyObj 0) 1 false false), S n);
  env_render := fun n => (Ok (PyArr small_image), n)
|}.

(** The second round meets the broken observation and the call ends with
    numpy's exception, after one step. *)
Lemma malformed_observation_propagates_witness :
  exists s,
    run_episode tree_jax np_strict None plain_host still_agent breaking_env
      false None default_max_steps default_img_hw 0
    = (Raise (Exc "TypeError"), s)
    /\ length (actions s.2) = 1.
Proof.
  destruct (malformed_observation_propagates tree_jax np_strict None plain_host
              still_agent breaking_env false None default_max_steps
              default_img_hw) as (_ & _ & Hrun).
  eexists. split.
  - eapply (Hrun 0 (PyArr joints) 0).
    + reflexivity.
    + eapply reaches_round; [vm_compute; reflexivity|reflexivity|].
      apply reaches_here.
    + vm_compute. reflexivity.
  - vm_compute. reflexivity.
Defined.

(** Two environments that differ inside, one counting its steps from zero
    and one from a hundred, answer alike; the two runs make the same calls
    and return the same result. *)
Lemma run_episode_deterministic_witness :
  (play (timer_env 37 half_for_25) true (Some "videos/eval.mp4") default_max_steps).1
  = (run_episode tree_jax np_like None plain_host still_agent
       (shifted_env 37 half_for_25) true (Some "videos/eval.mp4")
       default_max_steps default_img_hw 100).1
  /\ (play (timer_env 37 half_for_25) true (Some "videos/eval.mp4")
        default_max_steps).2.2
     = (run_episode tree_jax np_like None plain_host still_agent
          (shifted_env 37 half_for_25) true (Some "videos/eval.mp4")
          default_max_steps default_img_hw 100).2.2
  /\ actions (play (timer_env 37 half_for_25) true (Some "videos/eval.mp4")
                default_max_steps).2.2
     = actions (run_episode tree_jax np_like None plain_host still_agent
                  (shifted_env 37 half_for_25) true (Some "videos/eval.mp4")
                  default_max_steps default_img_hw 100).2.2
  /\ (run_episode tree_jax np_like None plain_host still_agent
        (shifted_env 37 half_for_25) true (Some "videos/eval.mp4")
        default_max_steps default_img_hw 100).2.1
     = (play (timer_env 37 half_for_25) true (Some "videos/eval.mp4")
          default_max_steps).2.1 + 100.
Proof.
  apply (run_episode_deterministic tree_jax np_like None still_agent true
           (Some "videos/eval.mp4") default_max_steps default_img_hw
           plain_host plain_host (timer_env 37 half_for_25)
           (shifted_env 37 half_for_25) (fun w1 w2 => w2 = w1 + 100)).
  - constructor.
    + intros w1 w2 _. split; reflexivity.
    + intros a w1 w2 ->. cbn. rewrite Nat.add_sub. split; reflexivity.
    + intros w1 w2 ->. split; reflexivity.
    + reflexivity.
    + intros d w1 w2 ->. split; reflexivity.
    + intros p fs fps w1 w2 ->. split; reflexivity.
  - reflexivity.
Defined.


(** ** More on the observation adapter *)

(** A second pass of [_resize_top] finds the image at the size asked for
    (or with fewer than three axes) and leaves the observation alone. *)
Theorem resize_top_idempotent cv2 H W ob :
  (forall resize, cv2 = Some resize -> resizes_to_size resize) ->
  _resize_top cv2 (H, W) (_resize_top cv2 (H, W) ob)
  = _resize_top cv2 (H, W) ob.
Proof.
  intros Hcv2.
  destruct (resize_top_cases cv2 H W ob)
    as [Hsame|(resize & m & px & a & out & -> & -> & Hpx & Htop & Hn & Hd & Hr & Hres)].
  { rewrite Hsame. exact Hsame. }
  rewrite Hres.
  destruct (resize_top_cases (Some resize) H W
              (PyDict (<["pixels" := PyDict (<["top" := PyArr out]> px)]> m)))
    as [Hsame|(resize' & m' & px' & a' & out' & Hc & Hm & Hpx' & Htop' & _ & Hd' & _)].
  { exact Hsame. }
  exfalso. injection Hc as <-. injection Hm as <-.
  rewrite lookup_insert_eq in Hpx'. injection Hpx' as <-.
  rewrite lookup_insert_eq in Htop'. injection Htop' as <-.
  apply Hd'. eapply (Hcv2 resize eq_refl). exact Hr.
Qed.

(** Whatever the leaves were, every leaf of a batched observation is an
    array whose leading axis has size one: the policy is always handed a
    batch of one. *)
Theorem obs_to_batched_batch_of_one np_coerce ob ob' x :
  _obs_to_batched np_coerce ob = Ok ob' ->
  leaf_of ob' x ->
  exists a, x = PyArr a /\ head (shape a) = Some 1.
Proof.
  unfold _obs_to_batched. revert ob' x.
  induction ob as [v Hl| |t l IH|m IH] using pyval_rect_nested;
    intros ob' x Hb Hleaf.
  - rewrite tree_map_leaf in Hb by exact Hl. unfold batch_leaf in Hb.
    destruct (asarray np_coerce v) as [a|]; [|discriminate].
    injection Hb as <-. inversion Hleaf; subst.
    exists (expand_leading a). split; reflexivity.
  - injection Hb as <-. inversion Hleaf; subst. discriminate.
  - cbn in Hb.
    destruct (sequence _) as [l'|] eqn:Hs; [|discriminate].
    injection Hb as <-. apply sequence_ok in Hs.
    inversion Hleaf as [? Hl'|? ? v' ? Hin Hv'|]; subst; [discriminate|].
    apply list_elem_of_In, list_elem_of_lookup in Hin as (i & Hi).
    destruct (Forall2_lookup_r _ _ _ _ _ Hs Hi) as (r & Hr & Hrv).
    apply list_lookup_fmap_Some in Hr as (v & -> & Hv).
    eapply (IH v); [|exact Hrv|exact Hv'].
    eapply list_elem_of_In, list_elem_of_lookup_2, Hv.
  - cbn in Hb.
    destruct (dict_collect _) as [m'|] eqn:Hs; [|discriminate].
    injection Hb as <-. apply dict_collect_ok in Hs as [_ ->].
    inversion Hleaf as [? Hl'| |? k v' ? Hk Hv']; subst; [discriminate|].
    rewrite lookup_omap, lookup_fmap in Hk.
    destruct (m !! k) as [v|] eqn:Hv; [|discriminate].
    cbn in Hk.
    destruct (tree_map (batch_leaf np_coerce) v) as [w|] eqn:Hw; [|discriminate].
    injection Hk as <-.
    eapply (IH k v Hv); [exact Hw|exact Hv'].
Qed.


(** ** More on the episode runner *)

(** Kinds of log entries. *)
Definition is_reset {Key : Type} (ev : event Key) : bool :=
  match ev with EvReset _ => true | _ => false end.

Definition is_render {Key : Type} (ev : event Key) : bool :=
  match ev with EvRender _ => true | _ => false end.

(** The entries [save_video] writes: the directory, the video, the notice. *)
Definition is_storage {Key : Type} (ev : event Key) : bool :=
  match ev with
  | EvMakedirs _ _ | EvMimsave _ _ _ _ | EvPrint _ => true
  | _ => false
  end.

(** The exception a logged call ended with, if it raised. *)
Definition failed {Key : Type} (ev : event Key) : option exn :=
  match ev with
  | EvReset (Raise e) | EvSample _ _ (Raise e) | EvStep _ (Raise e)
  | EvRender (Raise e) | EvMakedirs _ (Raise e) | EvMimsave _ _ _ (Raise e) =>
      Some e
  | _ => None
  end.

(** The batched observations handed to the agent, and its answers. *)
Definition queries {Key : Type} (tr : list (event Key)) : list pyval :=
  omap (fun e => match e with EvSample b _ _ => Some b | _ => None end) tr.

Definition answers {Key : Type} (tr : list (event Key)) : list pyval :=
  omap (fun e => match e with EvSample _ _ (Ok o) => Some o | _ => None end) tr.

(** What the [env.render] calls returned. *)
Definition render_outs {Key : Type} (tr : list (event Key)) : list pyval :=
  omap (fun e => match e with EvRender (Ok v) => Some v | _ => None end) tr.

Section Logs.

Context {Key World : Type}.

(** [emits P m]: whatever its outcome, [m] only appends to the log, and
    only entries that satisfy [P]. *)
Definition emits (P : event Key -> Prop) {A : Type} (m : @M Key World A) : Prop :=
  forall s, exists d, (m s).2.2 = s.2 ++ d /\ Forall P d.

Lemma emits_ret P {A : Type} (a : A) : emits P (retM a).
Proof. intros s. exists []. cbn. rewrite app_nil_r. auto. Qed.

Lemma emits_lift P {A : Type} (r : res A) : emits P (lift r).
Proof. intros s. exists []. cbn. rewrite app_nil_r. auto. Qed.

Lemma emits_query P {A : Type} (r : res A) ev :
  P (ev r) -> emits P (query (World := World) r ev).
Proof. intros Hp s. exists [ev r]. cbn. auto. Qed.

Lemma emits_emit (P : event Key -> Prop) e :
  P e -> emits P (emit (World := World) e).
Proof. intros Hp s. exists [e]. cbn. auto. Qed.

Lemma emits_call P {A : Type} (op : World -> res A * World) ev :
  (forall r, P (ev r)) -> emits P (call op ev).
Proof.
  intros Hp s. unfold call. destruct (op s.1) as [r w']. exists [ev r].
  cbn. auto.
Qed.

Lemma emits_bind P {A B : Type} (m : M A) (k : A -> M B) :
  emits P m -> (forall a, emits P (k a)) -> emits P (bindM m k).
Proof.
  intros Hm Hk s. unfold bindM. destruct (Hm s) as (d1 & Hd1 & Hp1).
  destruct (m s) as [[a|e] s1]; cbn in *.
  - destruct (Hk a s1) as (d2 & Hd2 & Hp2). exists (d1 ++ d2).
    rewrite Hd2, Hd1, app_assoc. split; [reflexivity|].
    apply Forall_app. auto.
  - exists d1. auto.
Qed.

Lemma emits_loop_rel P max_steps
    (body : loop_state Key -> @state Key World ->
            res (loop_state Key * bool * bool) * @state Key World) ls s out :
  (forall ls', emits P (body ls')) ->
  loop_rel max_steps body ls s out ->
  exists d, out.2.2 = s.2 ++ d /\ Forall P d.
Proof.
  intros Hbody.
  induction 1 as [ls s e s1 Hb|ls s ls1 t u s1 Hb Hx|ls s ls1 t u s1 out Hb Hx _ IH];
    destruct (Hbody ls s) as (d1 & Hd1 & Hp1); rewrite Hb in Hd1; cbn in Hd1.
  - exists d1. auto.
  - exists d1. auto.
  - destruct IH as (d2 & Hd2 & Hp2). exists (d1 ++ d2).
    rewrite Hd2, Hd1, app_assoc. split; [reflexivity|].
    apply Forall_app. auto.
Qed.

Lemma emits_weaken (P Q : event Key -> Prop) {A : Type} (m : M A) :
  (forall ev, P ev -> Q ev) -> emits P m -> emits Q m.
Proof.
  intros Hpq Hm s. destruct (Hm s) as (d & Hd & Hp). exists d.
  split; [exact Hd|]. eapply Forall_impl; eassumption.
Qed.

(** A log in which no call has raised. *)
Definition clean (tr : list (event Key)) : Prop :=
  Forall (fun ev => failed ev = None) tr.

(** [sound m]: started on a clean log, [m] either returns and leaves the
    log clean, or raises; and when it raises, either the log is still clean
    (the exception came from a conversion that is not logged), or the call
    that raised the same exception is the last entry of the log. *)
Definition ends_well {A : Type} (out : res A * @state Key World) : Prop :=
  match out with
  | (Ok _, s') => clean s'.2
  | (Raise e, s') =>
      clean s'.2
      \/ exists tr0 ev, s'.2 = tr0 ++ [ev] /\ clean tr0 /\ failed ev = Some e
  end.

Definition sound {A : Type} (m : @M Key World A) : Prop :=
  forall s, clean s.2 -> ends_well (m s).

(** A constructor of log entries that records the outcome of a call. *)
Definition records {A : Type} (ev : res A -> event Key) : Prop :=
  forall r, failed (ev r) = match r with Ok _ => None | Raise e => Some e end.

Lemma sound_ret {A : Type} (a : A) : sound (retM a).
Proof. intros s Hs. exact Hs. Qed.

Lemma sound_lift {A : Type} (r : res A) : sound (lift r).
Proof. intros s Hs. destruct r; cbn; auto. Qed.

Lemma sound_emit msg : sound (emit (World := World) (EvPrint msg)).
Proof.
  intros s Hs. cbn. apply Forall_app. split; [exact Hs|].
  constructor; [reflexivity|constructor].
Qed.

Lemma sound_logged {A : Type} (r : res A) ev (w : World) tr :
  records ev -> clean tr -> ends_well (r, (w, tr ++ [ev r])).
Proof.
  intros Hev Hs. destruct r as [a|e]; cbn.
  - apply Forall_app. split; [exact Hs|].
    constructor; [apply (Hev (Ok a))|constructor].
  - right. exists tr, (ev (Raise e)). split; [reflexivity|].
    split; [exact Hs|apply (Hev (Raise e))].
Qed.

Lemma sound_query {A : Type} (r : res A) ev :
  records ev -> sound (query (World := World) r ev).
Proof. intros Hev s Hs. apply sound_logged; assumption. Qed.

Lemma sound_call {A : Type} (op : World -> res A * World) ev :
  records ev -> sound (call op ev).
Proof.
  intros Hev s Hs. unfold call. destruct (op s.1) as [r w'].
  apply sound_logged; assumption.
Qed.

Lemma sound_bind {A B : Type} (m : M A) (k : A -> M B) :
  sound m -> (forall a, sound (k a)) -> sound (bindM m k).
Proof.
  intros Hm Hk s Hs. unfold bindM. specialize (Hm s Hs).
  destruct (m s) as [[a|e] s1]; cbn in *.
  - apply Hk, Hm.
  - exact Hm.
Qed.

Lemma sound_loop_rel max_steps
    (body : loop_state Key -> @state Key World ->
            res (loop_state Key * bool * bool) * @state Key World) ls s out :
  (forall ls', sound (body ls')) ->
  loop_rel max_steps body ls s out ->
  clean s.2 -> ends_well out.
Proof.
  intros Hbody.
  induction 1 as [ls s e s1 Hb|ls s ls1 t u s1 Hb Hx|ls s ls1 t u s1 out Hb Hx _ IH];
    intros Hs; pose proof (Hbody ls s Hs) as H1; rewrite Hb in H1.
  - exact H1.
  - exact H1.
  - apply IH. exact H1.
Qed.

(** In a log that ends well, a call that raised is the last entry, and the
    outcome is its exception. *)
Lemma ends_well_final {A : Type} (out : res A * @state Key World) i ev e :
  ends_well out -> out.2.2 !! i = Some ev -> failed ev = Some e ->
  out.1 = Raise e /\ S i = length out.2.2.
Proof.
  destruct out as [[a|e'] [w tr]]; cbn; intros Hend Hi Hf.
  - eapply Forall_lookup_1 in Hend; [|exact Hi]. congruence.
  - destruct Hend as [Hc|(tr0 & ev' & -> & Hc & Hf')].
    + eapply Forall_lookup_1 in Hc; [|exact Hi]. congruence.
    + destruct (decide (i < length tr0)) as [Hlt|Hge].
      * rewrite lookup_app_l in Hi by exact Hlt.
        eapply Forall_lookup_1 in Hc; [|exact Hi]. congruence.
      * rewrite lookup_app_r in Hi by lia.
        destruct (i - length tr0) as [|n] eqn:Hn; [|destruct n; discriminate].
        injection Hi as <-. rewrite length_app. cbn.
        split; [congruence|lia].
Qed.

End Logs.

Section RunnerFacts.

Context {Key World : Type}.
Variable jax : Jax Key.
Variable np_coerce : pyval -> res ndarray.
Variable cv2 : option cv2_resize_t.
Variable host : Host World.
Variable agent : Agent Key.
Variable env : Env World.
Variable render : bool.
Variable record_path : option string.
Variable max_steps : Z.
Variable img_hw : Z * Z.

(** An entry a round of the loop may write: a query, a step, and a render
    only when rendering is on. *)
Definition round_entry (ev : event Key) : Prop :=
  is_reset ev = false /\ is_storage ev = false
  /\ (is_render ev = true -> render = true).

Lemma capture_emits fs :
  emits round_entry (capture host env render fs).
Proof.
  unfold capture. destruct render eqn:Hr; [|apply emits_ret].
  apply emits_bind; [|intros; apply emits_ret].
  apply emits_call. intros r. repeat split; auto.
Qed.

Lemma iteration_emits ls :
  emits round_entry (iteration jax np_coerce cv2 host agent env render img_hw ls).
Proof.
  unfold iteration.
  apply emits_bind; [apply emits_lift|]. intros batched.
  destruct (split jax (key ls)) as [key' sub].
  apply emits_bind; [apply emits_query; repeat split; discriminate|]. intros sampled.
  apply emits_bind; [apply emits_lift|]. intros arr.
  apply emits_bind; [apply emits_lift|]. intros action.
  apply emits_bind; [apply emits_call; repeat split; discriminate|]. intros sr.
  apply emits_bind; [apply capture_emits|]. intros fs.
  apply emits_ret.
Qed.

Lemma episode_loop_emits ls :
  emits round_entry
    (episode_loop jax np_coerce cv2 host agent env render max_steps img_hw ls).
Proof.
  intros s. eapply emits_loop_rel; [apply iteration_emits|].
  apply while_true_rel.
Qed.

(** [save_video] writes only when there is a frame, a backend and a path. *)
Lemma save_video_emits fs :
  emits (fun ev : event Key => is_storage ev = true
                   /\ fs <> [] /\ imageio host <> None
                   /\ path_given record_path <> None)
    (save_video host record_path fs).
Proof.
  unfold save_video.
  destruct (path_given record_path) as [p|]; [|apply emits_ret].
  destruct (imageio host) as [mimsave|]; [|apply emits_ret].
  destruct (bool_decide (fs = [])) eqn:Hfs; [apply emits_ret|].
  apply bool_decide_eq_false in Hfs.
  apply emits_bind; [apply emits_call; repeat split; auto; discriminate|]. intros _.
  apply emits_bind; [apply emits_call; repeat split; auto; discriminate|]. intros _.
  apply emits_emit. repeat split; auto; discriminate.
Qed.

(** Without rendering no round captures a frame. *)
Lemma chain_no_frames ls s rs ls' s' :
  chain jax np_coerce cv2 host agent env render max_steps img_hw ls s rs ls' s' ->
  render = false -> frames ls' = frames ls.
Proof.
  intros Hc Hr. rewrite (chain_frames _ _ _ _ _ _ _ _ _ _ _ _ _ _ Hc).
  assert (Hnone : concat (map (captured host) rs) = []).
  { clear -Hc Hr.
    induction Hc as [ls s r ls' s' Hro _|ls s r ls1 s1 rs ls' s' Hro _ _ IH].
    - cbn. unfold captured. rewrite (ro_shot _ _ _ _ _ _ _ _ _ _ _ _ _ Hro Hr).
      reflexivity.
    - cbn. rewrite IH. unfold captured.
      rewrite (ro_shot _ _ _ _ _ _ _ _ _ _ _ _ _ Hro Hr). reflexivity. }
  rewrite Hnone, app_nil_r. reflexivity.
Qed.

(** The log of any call, returning or not: the reset, then what the rounds
    wrote, then what [save_video] wrote. *)
Lemma run_episode_shape w :
  exists r d1 d2,
    (run_episode jax np_coerce cv2 host agent env render record_path
       max_steps img_hw w).2.2 = EvReset r :: d1 ++ d2
    /\ Forall round_entry d1
    /\ Forall (fun ev => is_storage ev = true) d2
    /\ (render = false \/ imageio host = None \/ path_given record_path = None ->
        d2 = []).
Proof.
  unfold run_episode, run_episode_from, bindM, call. cbn [fst snd app].
  destruct (env_reset env w) as [[ob|e] w0].
  2: { exists (Raise e), [], []. cbn. auto. }
  destruct (episode_loop_emits (initial_state jax cv2 img_hw ob)
              (w0, [EvReset (Ok ob)])) as (d1 & Hd1 & Hp1).
  destruct (episode_loop _ _ _ _ _ _ _ _ _ _ _) as [[ls|e] s1] eqn:Hloop;
    cbn [fst snd] in Hd1.
  2: { exists (Ok ob), d1, []. rewrite app_nil_r. cbn [fst snd]. auto. }
  destruct (save_video_emits (frames ls) s1) as (d2 & Hd2 & Hp2).
  assert (Hlog : (let (r0, s') := save_video host record_path (frames ls) s1 in
                  match r0 with
                  | Ok a => retM {| return_ := ep_ret ls; length_ := ep_len ls |} s'
                  | Raise e => (Raise e, s')
                  end).2.2 = (save_video host record_path (frames ls) s1).2.2).
  { destruct (save_video host record_path (frames ls) s1) as [[[]|e] s2];
      reflexivity. }
  rewrite Hlog, Hd2, Hd1. exists (Ok ob), d1, d2.
  split; [reflexivity|]. split; [exact Hp1|].
  split. { eapply Forall_impl; [exact Hp2|]. intros ev Hev. apply Hev. }
  intros Hoff. destruct d2 as [|ev d2]; [reflexivity|]. exfalso.
  apply Forall_cons in Hp2 as [(_ & Hfs & Hio & Hpath) _].
  destruct Hoff as [Hr|[Hnone|Hnone]]; [|contradiction..].
  apply Hfs. apply episode_loop_chain in Hloop as (rs & Hc).
  rewrite (chain_no_frames _ _ _ _ _ Hc Hr). reflexivity.
Qed.

(** With rendering off, [env.render] is never called and nothing is stored
    or announced, whatever the outcome of the call and whatever
    [record_path] is. *)
Theorem no_render_no_video w :
  render = false ->
  Forall (fun ev => is_render ev = false /\ is_storage ev = false)
    (run_episode jax np_coerce cv2 host agent env render record_path
       max_steps img_hw w).2.2.
Proof.
  intros Hr. destruct (run_episode_shape w) as (r & d1 & d2 & -> & H1 & _ & Hoff).
  rewrite (Hoff (or_introl Hr)), app_nil_r.
  constructor; [split; reflexivity|].
  eapply Forall_impl; [exact H1|]. intros ev (_ & Hs & Hrender).
  split; [|exact Hs]. destruct (is_render ev); [|reflexivity].
  rewrite Hr in Hrender. symmetry. apply Hrender. reflexivity.
Qed.

(** Without the video backend, or without a record path, the call writes
    no directory, no video and no notice, whatever its outcome; rendering
    may be on. *)
Theorem no_backend_no_video w :
  imageio host = None \/ path_given record_path = None ->
  Forall (fun ev => is_storage ev = false)
    (run_episode jax np_coerce cv2 host agent env render record_path
       max_steps img_hw w).2.2.
Proof.
  intros Hoff. destruct (run_episode_shape w) as (r & d1 & d2 & -> & H1 & _ & Hd2).
  rewrite (Hd2 (or_intror Hoff)), app_nil_r.
  constructor; [reflexivity|].
  eapply Forall_impl; [exact H1|]. intros ev (_ & Hs & _). exact Hs.
Qed.

(** Every call resets the environment first, and never again. *)
Theorem reset_first_and_once w :
  exists r rest,
    (run_episode jax np_coerce cv2 host agent env render record_path
       max_steps img_hw w).2.2 = EvReset r :: rest
    /\ Forall (fun ev => is_reset ev = false) rest.
Proof.
  destruct (run_episode_shape w) as (r & d1 & d2 & -> & H1 & H2 & _).
  exists r, (d1 ++ d2). split; [reflexivity|]. apply Forall_app. split.
  - eapply Forall_impl; [exact H1|]. intros ev (Hr & _). exact Hr.
  - eapply Forall_impl; [exact H2|]. intros ev Hs. destruct ev; (discriminate || reflexivity).
Qed.

End RunnerFacts.

Section RunnerCalls.

Context {Key World : Type}.
Variable jax : Jax Key.
Variable np_coerce : pyval -> res ndarray.
Variable cv2 : option cv2_resize_t.
Variable host : Host World.
Variable agent : Agent Key.
Variable env : Env World.
Variable render : bool.
Variable record_path : option string.
Variable max_steps : Z.
Variable img_hw : Z * Z.

Lemma records_reset : records (Key := Key) EvReset.
Proof. intros [|]; reflexivity. Qed.

Lemma records_sample b k : records (Key := Key) (EvSample b k).
Proof. intros [|]; reflexivity. Qed.

Lemma records_step a : records (Key := Key) (EvStep a).
Proof. intros [|]; reflexivity. Qed.

Lemma records_render : records (Key := Key) EvRender.
Proof. intros [|]; reflexivity. Qed.

Lemma records_makedirs d : records (Key := Key) (EvMakedirs d).
Proof. intros [|]; reflexivity. Qed.

Lemma records_mimsave p fs fps : records (Key := Key) (EvMimsave p fs fps).
Proof. intros [|]; reflexivity. Qed.

Lemma capture_sound fs : sound (capture (Key := Key) host env render fs).
Proof.
  unfold capture. destruct render; [|apply sound_ret].
  apply sound_bind; [apply sound_call, records_render|].
  intros frame. apply sound_ret.
Qed.

Lemma iteration_sound ls :
  sound (iteration jax np_coerce cv2 host agent env render img_hw ls).
Proof.
  unfold iteration.
  apply sound_bind; [apply sound_lift|]. intros batched.
  destruct (split jax (key ls)) as [key' sub].
  apply sound_bind; [apply sound_query, records_sample|]. intros sampled.
  apply sound_bind; [apply sound_lift|]. intros arr.
  apply sound_bind; [apply sound_lift|]. intros action.
  apply sound_bind; [apply sound_call, records_step|]. intros sr.
  apply sound_bind; [apply capture_sound|]. intros fs.
  apply sound_ret.
Qed.

Lemma episode_loop_sound ls :
  sound (episode_loop jax np_coerce cv2 host agent env render max_steps img_hw ls).
Proof.
  intros s Hs. eapply sound_loop_rel; [apply iteration_sound| |exact Hs].
  apply while_true_rel.
Qed.

Lemma save_video_sound fs :
  sound (save_video (Key := Key) host record_path fs).
Proof.
  unfold save_video.
  destruct (path_given record_path) as [p|]; [|apply sound_ret].
  destruct (imageio host) as [mimsave|]; [|apply sound_ret].
  destruct (bool_decide (fs = [])); [apply sound_ret|].
  apply sound_bind; [apply sound_call, records_makedirs|]. intros _.
  apply sound_bind; [apply sound_call, records_mimsave|]. intros _.
  apply sound_emit.
Qed.

Lemma run_episode_from_sound :
  sound (run_episode_from jax np_coerce cv2 host agent env render record_path
           max_steps img_hw).
Proof.
  unfold run_episode_from.
  apply sound_bind; [apply sound_call, records_reset|]. intros ob.
  apply sound_bind; [apply episode_loop_sound|]. intros ls.
  apply sound_bind; [apply save_video_sound|]. intros _.
  apply sound_ret.
Qed.

(** Nothing is caught and nothing is retried: when a call to the
    environment, the agent or the host raises, whether it is [reset],
    [step], [render], [sample_actions], [os.makedirs] or [imageio.mimsave],
    it is the last call [run_episode] makes, and [run_episode] ends with the
    same exception. *)
Theorem failure_is_final w i ev e :
  (run_episode jax np_coerce cv2 host agent env render record_path
     max_steps img_hw w).2.2 !! i = Some ev ->
  failed ev = Some e ->
  (run_episode jax np_coerce cv2 host agent env render record_path
     max_steps img_hw w).1 = Raise e
  /\ S i = length (run_episode jax np_coerce cv2 host agent env render
                     record_path max_steps img_hw w).2.2.
Proof.
  apply ends_well_final. apply run_episode_from_sound. constructor.
Qed.

(** *** What a call that returns did, round by round *)

Lemma queries_rounds (rs : list (round Key)) :
  queries (rounds_log rs) = map r_batched rs.
Proof.
  unfold rounds_log, queries. induction rs as [|r rs IH]; [reflexivity|].
  cbn [map concat]. rewrite omap_app, IH.
  unfold round_log. destruct (r_shot r); reflexivity.
Qed.

Lemma answers_rounds (rs : list (round Key)) :
  answers (rounds_log rs) = map r_sampled rs.
Proof.
  unfold rounds_log, answers. induction rs as [|r rs IH]; [reflexivity|].
  cbn [map concat]. rewrite omap_app, IH.
  unfold round_log. destruct (r_shot r); reflexivity.
Qed.


(** Storage entries show in none of the views of a round. *)
Lemma storage_views (d : list (event Key)) :
  Forall (fun ev => is_storage ev = true) d ->
  queries d = [] /\ answers d = [] /\ render_outs d = []
  /\ actions d = [] /\ step_outs d = [].
Proof.
  induction 1 as [|ev d Hev _ IH]; [repeat split; reflexivity|].
  destruct IH as (Hq & Ha & Hr & Hac & Hso).
  unfold queries, answers, render_outs, actions, step_outs in *.
  destruct ev; try discriminate; cbn; auto.
Qed.

(** The log of a call that returned, with the rounds it made. *)
Lemma run_episode_rounds w result s' :
  run_episode jax np_coerce cv2 host agent env render record_path
    max_steps img_hw w = (Ok result, s') ->
  exists ob w0 rs ls s1 d,
    chain jax np_coerce cv2 host agent env render max_steps img_hw
      (initial_state jax cv2 img_hw ob) (w0, [EvReset (Ok ob)]) rs ls s1
    /\ s'.2 = EvReset (Ok ob) :: rounds_log rs ++ d
    /\ Forall (fun ev => is_storage ev = true) d
    /\ result = {| return_ := ep_ret ls; length_ := ep_len ls |}.
Proof.
  intros Hrun.
  apply run_episode_ok in Hrun as (ob & w0 & rs & ls & s1 & _ & Hc & Hs & ->).
  destruct (save_video_emits host record_path (frames ls) s1) as (d & Hd & Hp).
  rewrite Hs in Hd. cbn [fst snd] in Hd.
  exists ob, w0, rs, ls, s1, d. split; [exact Hc|].
  split. { rewrite Hd, (chain_log _ _ _ _ _ _ _ _ _ _ _ _ _ _ Hc), <- app_assoc.
           reflexivity. }
  split; [|reflexivity].
  eapply Forall_impl; [exact Hp|]. intros ev Hev. apply Hev.
Qed.

Lemma chain_queries ls s rs ls' s' :
  chain jax np_coerce cv2 host agent env render max_steps img_hw ls s rs ls' s' ->
  map (fun r => Ok (r_batched r)) rs
  = map (_obs_to_batched np_coerce)
      (take (length rs)
         (obs ls :: map (fun r => _resize_top cv2 img_hw (next_obs (r_sr r))) rs)).
Proof.
  induction 1 as [ls s r ls' s' Hro _|ls s r ls1 s1 rs ls' s' Hro _ _ IH].
  - cbn. rewrite (ro_batched _ _ _ _ _ _ _ _ _ _ _ _ _ Hro). reflexivity.
  - cbn [map length take]. rewrite (ro_batched _ _ _ _ _ _ _ _ _ _ _ _ _ Hro).
    f_equal. rewrite IH, (ro_obs _ _ _ _ _ _ _ _ _ _ _ _ _ Hro). reflexivity.
Qed.

Lemma chain_actions ls s rs ls' s' :
  chain jax np_coerce cv2 host agent env render max_steps img_hw ls s rs ls' s' ->
  map (fun r => Ok (r_action r)) rs
  = map (fun r => res_bind (asarray np_coerce (r_sampled r)) index0) rs.
Proof.
  induction 1 as [ls s r ls' s' Hro _|ls s r ls1 s1 rs ls' s' Hro _ _ IH].
  - cbn. rewrite (ro_action _ _ _ _ _ _ _ _ _ _ _ _ _ Hro). reflexivity.
  - cbn [map]. rewrite (ro_action _ _ _ _ _ _ _ _ _ _ _ _ _ Hro), IH. reflexivity.
Qed.


(** In a call that returns, the agent is queried once per step, each time
    on the batched, resized observation the environment gave last (the one
    of the reset, then the one of each step but the last), and the action
    submitted to that step is slice [0] of the agent's answer as an array. *)
Theorem observations_are_threaded w result w' tr :
  run_episode jax np_coerce cv2 host agent env render record_path
    max_steps img_hw w = (Ok result, (w', tr)) ->
  exists ob,
    head tr = Some (EvReset (Ok ob))
    /\ length (queries tr) = length (actions tr)
    /\ map Ok (queries tr)
       = map (fun o => _obs_to_batched np_coerce (_resize_top cv2 img_hw o))
           (take (length (queries tr)) (ob :: map next_obs (step_outs tr)))
    /\ map Ok (actions tr)
       = map (fun o => res_bind (asarray np_coerce o) index0) (answers tr).
Proof.
  intros Hrun.
  apply run_episode_rounds in Hrun as (ob & w0 & rs & ls & s1 & d & Hc & Htr & Hd & _).
  cbn [fst snd] in Htr. subst tr.
  destruct (storage_views d Hd) as (Hq & Ha & _ & Hac & Hso).
  exists ob. split; [reflexivity|].
  assert (Eq : queries (EvReset (Ok ob) :: rounds_log rs ++ d) = map r_batched rs).
  { unfold queries in *. cbn [omap list_omap]. rewrite omap_app, Hq, app_nil_r.
    apply queries_rounds. }
  assert (Ea : answers (EvReset (Ok ob) :: rounds_log rs ++ d) = map r_sampled rs).
  { unfold answers in *. cbn [omap list_omap]. rewrite omap_app, Ha, app_nil_r.
    apply answers_rounds. }
  assert (Eac : actions (EvReset (Ok ob) :: rounds_log rs ++ d) = map r_action rs).
  { unfold actions in *. cbn [omap list_omap]. rewrite omap_app, Hac, app_nil_r.
    apply actions_rounds. }
  assert (Eso : step_outs (EvReset (Ok ob) :: rounds_log rs ++ d) = map r_sr rs).
  { unfold step_outs in *. cbn [omap list_omap]. rewrite omap_app, Hso, app_nil_r.
    apply step_outs_rounds. }
  rewrite Eq, Ea, Eac, Eso, !length_map, !map_map.
  split; [reflexivity|]. split.
  - rewrite (chain_queries _ _ _ _ _ Hc). cbn [initial_state obs].
    replace (_resize_top cv2 img_hw ob
             :: map (fun r => _resize_top cv2 img_hw (next_obs (r_sr r))) rs)
      with (map (_resize_top cv2 img_hw)
              (ob :: map (fun r => next_obs (r_sr r)) rs))
      by (cbn [map]; rewrite map_map; reflexivity).
    rewrite firstn_map, map_map. reflexivity.
  - apply (chain_actions _ _ _ _ _ Hc).
Qed.


End RunnerCalls.


(** ** The evaluation run: [main] *)

(** The parsed command line. *)
Record Args : Type := {
  args_ckpt_dir : string;
  args_step : option Z;
  args_env_name : string;
  args_aloha_task : string;
  args_episodes : Z;
  args_render : bool;
  args_video_out : string;
  args_frame_stack : option Z
}.

(** The defaults of the parser, for a given [--ckpt_dir]. *)
Definition default_args (ckpt_dir : string) : Args := {|
  args_ckpt_dir := ckpt_dir;
  args_step := None;
  args_env_name := "gym-aloha";
  args_aloha_task := "sim_insertion";
  args_episodes := 5;
  args_render := false;
  args_video_out := "videos/eval_episode_{:03d}.mp4";
  args_frame_stack := None
|}.

(** Python's text formatting and [np.mean], as [main] uses them:
    [template.format(i)], which may raise on a bad template, [f"{x:.3f}"],
    [str] of an integer, and the mean of a list of floats. *)
Record Builtins : Type := {
  str_format : string -> Z -> res string;
  format_3f : float -> string;
  str_int : Z -> string;
  np_mean : list float -> float
}.

(** What [main] imports from the rest of the repository, and the objects
    these hand back: the datasets (a dataset without [sample] is used as the
    example batch itself), the configuration, the registry of agent classes
    and the checkpoint loader.  [get_config] stands for the two imports that
    precede it and the call. *)
Record Repo (Key World Dataset Config AgentCls : Type) : Type := {
  environ_setdefault : string -> string -> World -> World;
  make_env_and_datasets :
    string -> option Z -> string -> World ->
    res (Env World * Env World * Dataset * Dataset) * World;
  has_sample : Dataset -> bool;
  ds_sample : Dataset -> Z -> World -> res Dataset * World;
  ds_item : Dataset -> string -> res pyval;
  get_config : World -> res Config * World;
  cfg_item : Config -> string -> res string;
  agents : string -> res AgentCls;
  agent_create :
    AgentCls -> Z -> pyval -> pyval -> Config -> World -> res (Agent Key) * World;
  restore_agent :
    Agent Key -> string -> option Z -> World -> res (Agent Key) * World
}.
Arguments environ_setdefault {Key World Dataset Config AgentCls} _ _ _ _.
Arguments make_env_and_datasets {Key World Dataset Config AgentCls} _ _ _ _ _.
Arguments has_sample {Key World Dataset Config AgentCls} _ _.
Arguments ds_sample {Key World Dataset Config AgentCls} _ _ _ _.
Arguments ds_item {Key World Dataset Config AgentCls} _ _ _.
Arguments get_config {Key World Dataset Config AgentCls} _ _.
Arguments cfg_item {Key World Dataset Config AgentCls} _ _ _.
Arguments agents {Key World Dataset Config AgentCls} _ _.
Arguments agent_create {Key World Dataset Config AgentCls} _ _ _ _ _ _ _.
Arguments restore_agent {Key World Dataset Config AgentCls} _ _ _ _ _.

(** The messages [main] prints. *)
Definition restore_notice (text : Builtins) (args : Args) : string :=
  "[restore] loaded params from: " +:+ args_ckpt_dir args +:+ " step: "
  +:+ match args_step args with
      | Some n => str_int text n
      | None => "None"
      end.

Definition episode_line (text : Builtins) (i : nat) (info : EpisodeResult) : string :=
  "episode " +:+ str_int text (Z.of_nat i) +:+ ": return="
  +:+ format_3f text (return_ info) +:+ ", length=" +:+ str_int text (length_ info).

Definition summary_line (text : Builtins) (rets : list float) : string :=
  "[summary] mean_return=" +:+ format_3f text (np_mean text rets)
  +:+ "  episodes=" +:+ str_int text (Z.of_nat (length rets)).

Section Main.

Context {Key World Dataset Config AgentCls : Type}.
Variable jax : Jax Key.
Variable np_coerce : pyval -> res ndarray.
Variable cv2 : option cv2_resize_t.
Variable host : Host World.
Variable text : Builtins.
Variable repo : Repo Key World Dataset Config AgentCls.

Notation "'do' x <- m ; k" := (bindM m (fun x => k))
  (at level 10, x name, m at level 100, k at level 200).

(** A call into the world that the log does not record. *)
Definition act {A : Type} (op : World -> res A * World) : @M Key World A :=
  fun s =>
    let '(r, w') := op s.1 in
    (r, (w', s.2)).

(** [args.video_out.format(i) if args.render else None]. *)
Definition video_path (args : Args) (i : nat) : res (option string) :=
  if args_render args then
    res_map Some (str_format text (args_video_out args) (Z.of_nat i))
  else Ok None.

(** The [for i in range(args.episodes)] loop over the indices still to
    run, with the returns gathered so far. *)
Fixpoint episodes_loop (args : Args) (agent : Agent Key) (eval_env : Env World)
    (indices : list nat) (rets : list float) : @M Key World (list float) :=
  match indices with
  | [] => retM rets
  | i :: rest =>
      do path <- lift (video_path args i);
      do info <- run_episode_from jax np_coerce cv2 host agent eval_env
                   (args_render args) path default_max_steps default_img_hw;
      do _ <- emit (EvPrint (episode_line text i info));
      episodes_loop args agent eval_env rest (rets ++ [return_ info])
  end.

(** The evaluation loop of [main], from [rets = []] to the list of
    returns. *)
Definition evaluation (args : Args) (agent : Agent Key) (eval_env : Env World) :
    @M Key World (list float) :=
  episodes_loop args agent eval_env (seq 0 (Z.to_nat (args_episodes args))) [].

(** Everything [main] does before the evaluation loop: the render backend
    variables, the environments and datasets, the example batch, the agent
    and its checkpoint. *)
Definition setup (args : Args) : @M Key World (Agent Key * Env World) :=
  do _ <- act (fun w => (Ok tt, environ_setdefault repo "MUJOCO_GL" "egl" w));
  do _ <- act (fun w => (Ok tt, environ_setdefault repo "PYOPENGL_PLATFORM" "egl" w));
  do made <- act (make_env_and_datasets repo (args_env_name args)
                    (args_frame_stack args) (args_aloha_task args));
  let '(env, eval_env, train_ds, val_ds) := made in
  do example <- (if has_sample repo train_ds
                 then act (ds_sample repo train_ds 1)
                 else retM train_ds);
  do ex_obs <- lift (ds_item repo example "observations");
  do ex_act <- lift (ds_item repo example "actions");
  do cfg <- act (get_config repo);
  do name <- lift (cfg_item repo cfg "agent_name");
  do agent_cls <- lift (agents repo name);
  do agent <- act (agent_create repo agent_cls 0 ex_obs ex_act cfg);
  do agent <- act (restore_agent repo agent (args_ckpt_dir args) (args_step args));
  retM (agent, eval_env).

(** [main()], on the parsed arguments. *)
Definition main (args : Args) : @M Key World unit :=
  do ready <- setup args;
  do _ <- emit (EvPrint (restore_notice text args));
  do rets <- evaluation args ready.1 ready.2;
  emit (EvPrint (summary_line text rets)).

End Main.

(** *** A computation does not read the log it appends to *)

Section Frames.

Context {Key World : Type}.

(** [framed m]: started on a log [tr0], [m] does what it does on the empty
    log, and its entries come after [tr0]. *)
Definition framed {A : Type} (m : @M Key World A) : Prop :=
  forall w tr0,
    m (w, tr0) = ((m (w, [])).1, ((m (w, [])).2.1, tr0 ++ (m (w, [])).2.2)).

Lemma framed_ret {A : Type} (a : A) : framed (retM a).
Proof. intros w tr0. cbn. rewrite app_nil_r. reflexivity. Qed.

Lemma framed_lift {A : Type} (r : res A) : framed (lift r).
Proof. intros w tr0. cbn. rewrite app_nil_r. reflexivity. Qed.

Lemma framed_query {A : Type} (r : res A) ev :
  framed (query (World := World) r ev).
Proof. intros w tr0. reflexivity. Qed.

Lemma framed_emit e : framed (emit (Key := Key) (World := World) e).
Proof. intros w tr0. reflexivity. Qed.

Lemma framed_call {A : Type} (op : World -> res A * World) ev :
  framed (call op ev).
Proof.
  intros w tr0. unfold call. cbn [fst snd]. destruct (op w) as [r w'].
  reflexivity.
Qed.

Lemma framed_act {A : Type} (op : World -> res A * World) :
  framed (act (Key := Key) op).
Proof.
  intros w tr0. unfold act. cbn [fst snd]. destruct (op w) as [r w'].
  cbn. rewrite app_nil_r. reflexivity.
Qed.

Lemma framed_bind {A B : Type} (m : M A) (k : A -> M B) :
  framed m -> (forall a, framed (k a)) -> framed (bindM m k).
Proof.
  intros Hm Hk w tr0. unfold bindM. rewrite (Hm w tr0).
  destruct (m (w, [])) as [[a|e] [w1 t1]]; cbn [fst snd]; [|reflexivity].
  rewrite (Hk a w1 (tr0 ++ t1)), (Hk a w1 t1).
  destruct (k a (w1, [])) as [r [w2 t2]]; cbn [fst snd].
  rewrite app_assoc. reflexivity.
Qed.

Lemma framed_loop_rel max_steps
    (body : loop_state Key -> @state Key World ->
            res (loop_state Key * bool * bool) * @state Key World) ls s out :
  (forall ls', framed (body ls')) ->
  loop_rel max_steps body ls s out ->
  forall tr0,
    loop_rel max_steps body ls (s.1, tr0 ++ s.2) (out.1, (out.2.1, tr0 ++ out.2.2)).
Proof.
  intros Hbody.
  induction 1 as [ls [w t] e [w1 t1] Hb|ls [w t] ls1 b1 b2 [w1 t1] Hb Hx
                 |ls [w t] ls1 b1 b2 [w1 t1] out Hb Hx _ IH];
    intros tr0; cbn [fst snd] in *;
    pose proof (Hbody ls w t) as Ht; pose proof (Hbody ls w (tr0 ++ t)) as Htt;
    rewrite Hb in Ht; destruct (body ls (w, [])) as [r0 [w0 d]];
    cbn [fst snd] in Ht, Htt; injection Ht as <- <- ->;
    rewrite <- app_assoc in Htt.
  - apply loop_raise. exact Htt.
  - eapply loop_break; [exact Htt|exact Hx].
  - eapply loop_again; [exact Htt|exact Hx|apply IH].
Qed.

Lemma framed_while_true max_steps
    (body : loop_state Key -> @state Key World ->
            res (loop_state Key * bool * bool) * @state Key World) Hcount ls :
  (forall ls', framed (body ls')) ->
  framed (while_true max_steps body Hcount ls).
Proof.
  intros Hbody w tr0.
  eapply (loop_rel_functional max_steps body); [apply while_true_rel|].
  pose proof (framed_loop_rel max_steps body ls (w, []) _ Hbody
                (while_true_rel max_steps body Hcount ls (w, [])) tr0) as H.
  cbn [fst snd] in H. rewrite app_nil_r in H. exact H.
Qed.

End Frames.

Section MainFacts.

Context {Key World Dataset Config AgentCls : Type}.
Variable jax : Jax Key.
Variable np_coerce : pyval -> res ndarray.
Variable cv2 : option cv2_resize_t.
Variable host : Host World.
Variable text : Builtins.
Variable repo : Repo Key World Dataset Config AgentCls.

Lemma capture_framed (env : Env World) render fs :
  framed (capture (Key := Key) host env render fs).
Proof.
  unfold capture. destruct render; [|apply framed_ret].
  apply framed_bind; [apply framed_call|]. intros frame. apply framed_ret.
Qed.

Lemma iteration_framed agent env render img_hw ls :
  framed (iteration jax np_coerce cv2 host agent env render img_hw ls).
Proof.
  unfold iteration.
  apply framed_bind; [apply framed_lift|]. intros batched.
  destruct (split jax (key ls)) as [key' sub].
  apply framed_bind; [apply framed_query|]. intros sampled.
  apply framed_bind; [apply framed_lift|]. intros arr.
  apply framed_bind; [apply framed_lift|]. intros action.
  apply framed_bind; [apply framed_call|]. intros sr.
  apply framed_bind; [apply capture_framed|]. intros fs.
  apply framed_ret.
Qed.

Lemma save_video_framed record_path fs :
  framed (save_video (Key := Key) host record_path fs).
Proof.
  unfold save_video.
  destruct (path_given record_path) as [p|]; [|apply framed_ret].
  destruct (imageio host) as [mimsave|]; [|apply framed_ret].
  destruct (bool_decide (fs = [])); [apply framed_ret|].
  apply framed_bind; [apply framed_call|]. intros _.
  apply framed_bind; [apply framed_call|]. intros _.
  apply framed_emit.
Qed.

(** Inside a longer run, [run_episode] does what it does as a call of its
    own, on the world it finds. *)
Lemma run_episode_from_framed agent env render record_path max_steps img_hw :
  framed (run_episode_from jax np_coerce cv2 host agent env render record_path
            max_steps img_hw).
Proof.
  unfold run_episode_from.
  apply framed_bind; [apply framed_call|]. intros ob.
  apply framed_bind.
  { unfold episode_loop. apply framed_while_true. intros ls.
    apply iteration_framed. }
  intros ls.
  apply framed_bind; [apply save_video_framed|]. intros _.
  apply framed_ret.
Qed.

Lemma run_episode_inside agent env render record_path max_steps img_hw w tr0 :
  run_episode_from jax np_coerce cv2 host agent env render record_path
    max_steps img_hw (w, tr0)
  = ((run_episode jax np_coerce cv2 host agent env render record_path
        max_steps img_hw w).1,
     ((run_episode jax np_coerce cv2 host agent env render record_path
         max_steps img_hw w).2.1,
      tr0 ++ (run_episode jax np_coerce cv2 host agent env render record_path
                max_steps img_hw w).2.2)).
Proof. apply run_episode_from_framed. Qed.

(** [episodes_run args agent eval_env i w eps w']: from world [w], the
    episodes numbered [i], [i + 1], ... were run one after the other, each a
    call of [run_episode] with the defaults of its signature, on the world
    the one before left, under the path made from its number; each returned,
    with the result and the log listed in [eps]; the last left world [w']. *)
Inductive episodes_run (args : Args) (agent : Agent Key) (eval_env : Env World) :
    nat -> World -> list (EpisodeResult * list (event Key)) -> World -> Prop :=
| episodes_none i w : episodes_run args agent eval_env i w [] w
| episodes_next i w path info w1 elog rest w' :
    video_path text args i = Ok path ->
    run_episode jax np_coerce cv2 host agent eval_env (args_render args) path
      default_max_steps default_img_hw w = (Ok info, (w1, elog)) ->
    episodes_run args agent eval_env (S i) w1 rest w' ->
    episodes_run args agent eval_env i w ((info, elog) :: rest) w'.

(** The log of these episodes: each one's own log, then its line. *)
Fixpoint episodes_log (i : nat) (eps : list (EpisodeResult * list (event Key))) :
    list (event Key) :=
  match eps with
  | [] => []
  | ep :: rest =>
      ep.2 ++ EvPrint (episode_line text i ep.1) :: episodes_log (S i) rest
  end.

Lemma episodes_loop_ok args agent eval_env n :
  forall i rets w tr0 rets' s',
    episodes_loop jax np_coerce cv2 host text args agent eval_env (seq i n) rets
      (w, tr0) = (Ok rets', s') ->
    exists eps,
      episodes_run args agent eval_env i w eps s'.1
      /\ length eps = n
      /\ rets' = rets ++ map (fun ep => return_ ep.1) eps
      /\ s'.2 = tr0 ++ episodes_log i eps.
Proof.
  induction n as [|n IH]; intros i rets w tr0 rets' s' Hrun.
  - cbn in Hrun. injection Hrun as <- <-. exists []. cbn.
    rewrite !app_nil_r. repeat split. constructor.
  - cbn [seq episodes_loop] in Hrun. unfold bindM at 1, lift in Hrun.
    destruct (video_path text args i) as [path|] eqn:Hpath; [|discriminate].
    unfold bindM at 1 in Hrun. rewrite run_episode_inside in Hrun.
    destruct (run_episode jax np_coerce cv2 host agent eval_env (args_render args)
                path default_max_steps default_img_hw w)
      as [[info|e] [w1 elog]] eqn:Hep; [|discriminate].
    cbn [fst snd] in Hrun. unfold bindM at 1, emit in Hrun. cbn [fst snd] in Hrun.
    apply IH in Hrun as (eps & Hrest & Hlen & -> & ->).
    exists ((info, elog) :: eps). split; [|split; [|split]].
    + eapply episodes_next; eassumption.
    + cbn. rewrite Hlen. reflexivity.
    + cbn. rewrite <- app_assoc. reflexivity.
    + cbn. rewrite <- !app_assoc. reflexivity.
Qed.

Lemma emits_act (P : event Key -> Prop) {A : Type} (op : World -> res A * World) :
  emits P (act op).
Proof.
  intros s. unfold act. destruct (op s.1) as [r w']. exists [].
  cbn. rewrite app_nil_r. auto.
Qed.

Lemma sound_act {A : Type} (op : World -> res A * World) :
  sound (act (Key := Key) op).
Proof.
  intros s Hs. unfold act. destruct (op s.1) as [[a|e] w']; cbn; auto.
Qed.

(** The setup writes nothing to the log. *)
Lemma setup_emits args : emits (fun _ => False) (setup repo args).
Proof.
  unfold setup.
  apply emits_bind; [apply emits_act|]. intros _.
  apply emits_bind; [apply emits_act|]. intros _.
  apply emits_bind; [apply emits_act|]. intros [[[env eval_env] train_ds] val_ds].
  apply emits_bind.
  { destruct (has_sample repo train_ds); [apply emits_act|apply emits_ret]. }
  intros example.
  apply emits_bind; [apply emits_lift|]. intros ex_obs.
  apply emits_bind; [apply emits_lift|]. intros ex_act.
  apply emits_bind; [apply emits_act|]. intros cfg.
  apply emits_bind; [apply emits_lift|]. intros name.
  apply emits_bind; [apply emits_lift|]. intros agent_cls.
  apply emits_bind; [apply emits_act|]. intros agent.
  apply emits_bind; [apply emits_act|]. intros agent'.
  apply emits_ret.
Qed.

Lemma setup_log args s : (setup repo args s).2.2 = s.2.
Proof.
  destruct (setup_emits args s) as (d & Hd & Hp).
  destruct d as [|ev d]; [rewrite Hd, app_nil_r; reflexivity|].
  apply Forall_cons in Hp as [[] _].
Qed.

Lemma setup_sound args : sound (setup repo args).
Proof.
  unfold setup.
  apply sound_bind; [apply sound_act|]. intros _.
  apply sound_bind; [apply sound_act|]. intros _.
  apply sound_bind; [apply sound_act|]. intros [[[env eval_env] train_ds] val_ds].
  apply sound_bind.
  { destruct (has_sample repo train_ds); [apply sound_act|apply sound_ret]. }
  intros example.
  apply sound_bind; [apply sound_lift|]. intros ex_obs.
  apply sound_bind; [apply sound_lift|]. intros ex_act.
  apply sound_bind; [apply sound_act|]. intros cfg.
  apply sound_bind; [apply sound_lift|]. intros name.
  apply sound_bind; [apply sound_lift|]. intros agent_cls.
  apply sound_bind; [apply sound_act|]. intros agent.
  apply sound_bind; [apply sound_act|]. intros agent'.
  apply sound_ret.
Qed.

Lemma episodes_loop_sound args agent eval_env indices :
  forall rets,
    sound (episodes_loop jax np_coerce cv2 host text args agent eval_env indices rets).
Proof.
  induction indices as [|i rest IH]; intros rets; cbn [episodes_loop].
  - apply sound_ret.
  - apply sound_bind; [apply sound_lift|]. intros path.
    apply sound_bind; [apply run_episode_from_sound|]. intros info.
    apply sound_bind; [apply sound_emit|]. intros _.
    apply IH.
Qed.

Lemma main_sound args : sound (main jax np_coerce cv2 host text repo args).
Proof.
  unfold main.
  apply sound_bind; [apply setup_sound|]. intros ready.
  apply sound_bind; [apply sound_emit|]. intros _.
  apply sound_bind; [apply episodes_loop_sound|]. intros rets.
  apply sound_emit.
Qed.

(** The log of a [main] that returns: after the setup, which logs nothing,
    the restore notice, then the episodes in order, each followed by its
    line, and last the summary line over the returns of all of them. *)
Lemma main_ok args w w' tr :
  main jax np_coerce cv2 host text repo args (w, []) = (Ok tt, (w', tr)) ->
  exists agent eval_env w0 eps,
    setup repo args (w, []) = (Ok (agent, eval_env), (w0, []))
    /\ episodes_run args agent eval_env 0 w0 eps w'
    /\ length eps = Z.to_nat (args_episodes args)
    /\ tr = EvPrint (restore_notice text args) :: episodes_log 0 eps
            ++ [EvPrint (summary_line text (map (fun ep => return_ ep.1) eps))].
Proof.
  unfold main, bindM at 1. intros Hrun.
  pose proof (setup_log args (w, [])) as Hlog.
  destruct (setup repo args (w, [])) as [[[agent eval_env]|e] [w0 t0]];
    [|discriminate].
  cbn [fst snd] in Hlog. subst t0.
  unfold bindM at 1, emit in Hrun. cbn [fst snd app] in Hrun.
  unfold bindM at 1, evaluation in Hrun.
  destruct (episodes_loop _ _ _ _ _ _ _ _ _ _ _) as [[rets|e] [w1 t1]] eqn:Hloop;
    [|discriminate].
  cbn [fst snd] in Hrun. injection Hrun as <- <-.
  apply episodes_loop_ok in Hloop as (eps & Hrest & Hlen & -> & Ht).
  cbn [fst snd] in Hrest, Ht. subst t1.
  exists agent, eval_env, w0, eps. cbn [app].
  repeat split; assumption || reflexivity.
Qed.

(** In [main] too nothing is caught: a call that raises, in any episode, is
    the last call of the run, [main] ends with its exception, and neither a
    later episode nor the summary follows. *)
Theorem main_failure_is_final args w i ev e :
  (main jax np_coerce cv2 host text repo args (w, [])).2.2 !! i = Some ev ->
  failed ev = Some e ->
  (main jax np_coerce cv2 host text repo args (w, [])).1 = Raise e
  /\ S i = length (main jax np_coerce cv2 host text repo args (w, [])).2.2.
Proof.
  apply ends_well_final. apply main_sound. constructor.
Qed.

Lemma reset_shape_for agent env render record_path w :
  exists r rest,
    (run_episode jax np_coerce cv2 host agent env render record_path
       default_max_steps default_img_hw w).2.2 = EvReset r :: rest
    /\ Forall (fun ev => is_reset ev = false) rest.
Proof.
  destruct (run_episode_shape jax np_coerce cv2 host agent env render record_path
              default_max_steps default_img_hw w)
    as (r & d1 & d2 & -> & H1 & H2 & _).
  exists r, (d1 ++ d2). split; [reflexivity|]. apply Forall_app. split.
  - eapply Forall_impl; [exact H1|]. intros ev (Hr & _). exact Hr.
  - eapply Forall_impl; [exact H2|]. intros ev Hs.
    destruct ev; (discriminate || reflexivity).
Qed.

Lemma episodes_run_length args agent eval_env i w eps w' :
  episodes_run args agent eval_env i w eps w' ->
  Forall (fun ep : EpisodeResult * list (event Key) =>
            exists path w0 w1,
              run_episode jax np_coerce cv2 host agent eval_env (args_render args)
                path default_max_steps default_img_hw w0 = (Ok ep.1, (w1, ep.2)))
    eps.
Proof.
  induction 1 as [|i w path info w1 elog rest w' _ Hrun _ IH]; constructor.
  - exists path, w, w1. exact Hrun.
  - exact IH.
Qed.

(** What one returned episode contributes to the views of the log. *)
Lemma episode_views agent eval_env render path w0 info w1 elog :
  run_episode jax np_coerce cv2 host agent eval_env render path
    default_max_steps default_img_hw w0 = (Ok info, (w1, elog)) ->
  List.filter is_reset elog = take 1 elog
  /\ head elog <> None
  /\ (1 <= length_ info)%Z
  /\ length (actions elog) = Z.to_nat (length_ info)
  /\ seeds elog = map (nth_sub jax (PRNGKey jax 0)) (seq 0 (Z.to_nat (length_ info))).
Proof.
  intros Hrun.
  destruct (reset_shape_for agent eval_env render path w0) as (r & rest & Hlog & Hrest).
  rewrite Hrun in Hlog. cbn [fst snd] in Hlog.
  apply run_episode_views in Hrun as (rs & Hne & Ha & _ & Hs & _ & _ & ->).
  cbn [fst snd] in Ha, Hs. cbn [length_].
  rewrite Ha, Hs, length_map, Nat2Z.id. subst elog.
  split.
  { cbn. f_equal. clear -Hrest. induction Hrest as [|ev l Hev _ IH]; [reflexivity|].
    cbn. rewrite Hev. exact IH. }
  split; [discriminate|].
  split; [destruct rs; [congruence|cbn; lia]|].
  split; reflexivity.
Qed.

End MainFacts.

(** The lines printed, in order. *)
Definition printed {Key : Type} (tr : list (event Key)) : list string :=
  omap (fun e => match e with EvPrint msg => Some msg | _ => None end) tr.

(** The entries that touch the file system. *)
Definition is_file_write {Key : Type} (ev : event Key) : bool :=
  match ev with
  | EvMakedirs _ _ | EvMimsave _ _ _ _ => true
  | _ => false
  end.

(** The lines of the episodes numbered from [i] on. *)
Fixpoint lines_from (text : Builtins) (i : nat) (infos : list EpisodeResult) :
    list string :=
  match infos with
  | [] => []
  | info :: rest => episode_line text i info :: lines_from text (S i) rest
  end.

Lemma path_given_some record_path p :
  path_given record_path = Some p -> record_path = Some p.
Proof.
  unfold path_given. destruct record_path as [q|]; [|discriminate].
  destruct (bool_decide (q = "")); [discriminate|]. intros [= ->]. reflexivity.
Qed.

Section MainRuns.

Context {Key World Dataset Config AgentCls : Type}.
Variable jax : Jax Key.
Variable np_coerce : pyval -> res ndarray.
Variable cv2 : option cv2_resize_t.
Variable host : Host World.
Variable text : Builtins.
Variable repo : Repo Key World Dataset Config AgentCls.

(** The streams of seeds of episodes of the given lengths. *)
Definition seed_blocks (lens : list nat) : list Key :=
  concat (map (fun n => map (nth_sub jax (PRNGKey jax 0)) (seq 0 n)) lens).

Lemma episodes_log_views args agent eval_env i w eps w' :
  episodes_run jax np_coerce cv2 host text args agent eval_env i w eps w' ->
  length (List.filter is_reset (episodes_log text i eps)) = length eps
  /\ length (actions (episodes_log text i eps))
     = list_sum (map (fun ep => Z.to_nat (length_ ep.1)) eps)
  /\ seeds (episodes_log text i eps)
     = seed_blocks (map (fun ep => Z.to_nat (length_ ep.1)) eps)
  /\ Forall (fun ep => (1 <= length_ ep.1)%Z) eps
  /\ sublist (lines_from text i (map fst eps)) (printed (episodes_log text i eps)).
Proof.
  induction 1 as [|i w path info w1 elog rest w' _ Hrun _ IH].
  - cbn. repeat split; constructor.
  - destruct IH as (Hr & Ha & Hs & Hl & Hp).
    destruct (episode_views jax np_coerce cv2 host _ _ _ _ _ _ _ _ Hrun)
      as (Er & Eh & El & Ea & Es).
    cbn [episodes_log fst snd map length list_sum fold_right lines_from].
    split; [|split; [|split; [|split]]].
    + rewrite List.filter_app, length_app, Er. cbn [List.filter is_reset].
      rewrite Hr. destruct elog; [cbn in Eh; congruence|reflexivity].
    + unfold actions in *. rewrite omap_app, length_app. cbn [omap list_omap].
      rewrite Ha, Ea. reflexivity.
    + unfold seeds, seed_blocks in *. rewrite omap_app. cbn [omap list_omap map concat].
      rewrite Hs, Es. reflexivity.
    + constructor; assumption.
    + unfold printed in *. rewrite omap_app. cbn [omap list_omap].
      apply sublist_inserts_l. apply sublist_skip. exact Hp.
Qed.

(** A [main] that returns set up the agent and the evaluation environment
    and then ran exactly [args.episodes] episodes (none when the number is
    zero or negative): each is a call of [run_episode] on that agent and that
    environment that returned, started in the world the one before left,
    under the path made from its number.  The log of [main] is the restore
    notice, then for each episode in turn its own log followed by the line
    made from its number and from the return and the length that its call
    returned, and last the summary line over the returns of these calls, in
    order.  So the log has one reset per episode and as many [env.step]
    calls as the lengths of the episodes add up to, each at least one. *)
Theorem main_runs_every_episode args w w' tr :
  main jax np_coerce cv2 host text repo args (w, []) = (Ok tt, (w', tr)) ->
  exists agent eval_env w0 eps,
    setup repo args (w, []) = (Ok (agent, eval_env), (w0, []))
    /\ episodes_run jax np_coerce cv2 host text args agent eval_env 0 w0 eps w'
    /\ length eps = Z.to_nat (args_episodes args)
    /\ tr = EvPrint (restore_notice text args) :: episodes_log text 0 eps
            ++ [EvPrint (summary_line text (map (fun ep => return_ ep.1) eps))]
    /\ length (List.filter is_reset tr) = length eps
    /\ length (actions tr)
       = list_sum (map (fun ep => Z.to_nat (length_ ep.1)) eps)
    /\ Forall (fun ep => (1 <= length_ ep.1)%Z) eps
    /\ sublist (lines_from text 0 (map fst eps)) (printed tr).
Proof.
  intros Hrun.
  apply main_ok in Hrun as (agent & eval_env & w0 & eps & Hsetup & Heps & Hlen & ->).
  destruct (episodes_log_views _ _ _ _ _ _ _ Heps) as (Hr & Ha & _ & Hl & Hp).
  exists agent, eval_env, w0, eps.
  split; [exact Hsetup|]. split; [exact Heps|]. split; [exact Hlen|].
  split; [reflexivity|].
  split.
  { cbn [List.filter is_reset]. rewrite List.filter_app, length_app, Hr.
    cbn. lia. }
  split.
  { unfold actions in *. cbn [omap list_omap]. rewrite omap_app, length_app, Ha.
    cbn. lia. }
  split; [exact Hl|].
  unfold printed in *. cbn [omap list_omap]. rewrite omap_app.
  apply sublist_cons. apply sublist_inserts_r. exact Hp.
Qed.

(** Every episode of a [main] that returns draws its seeds from the start
    of the same stream: the seeds handed to the agent over the whole run are
    the initial stretches of that stream, one per episode and each as long as
    its episode, one after the other. *)
Theorem main_repeats_seeds args w w' tr :
  main jax np_coerce cv2 host text repo args (w, []) = (Ok tt, (w', tr)) ->
  exists lens : list nat,
    length lens = Z.to_nat (args_episodes args)
    /\ Forall (fun n => 1 <= n) lens
    /\ seeds tr = seed_blocks lens.
Proof.
  intros Hrun.
  apply main_ok in Hrun as (agent & eval_env & w0 & eps & _ & Heps & Hlen & ->).
  destruct (episodes_log_views _ _ _ _ _ _ _ Heps) as (_ & _ & Hs & Hl & _).
  exists (map (fun ep => Z.to_nat (length_ ep.1)) eps).
  rewrite length_map. split; [exact Hlen|]. split.
  - apply Forall_fmap. eapply Forall_impl; [exact Hl|]. intros ep Hep. cbn in Hep |- *. lia.
  - unfold seeds in *. cbn [omap list_omap]. rewrite omap_app, Hs.
    cbn. rewrite app_nil_r. reflexivity.
Qed.

Lemma episodes_videos args agent eval_env i w eps w' :
  episodes_run jax np_coerce cv2 host text args agent eval_env i w eps w' ->
  exists paths,
    Forall2 (fun j p => video_path text args j = Ok p) (seq i (length eps)) paths
    /\ sublist (map (fun v => Some v.1.1) (videos (episodes_log text i eps))) paths
    /\ Forall (fun v => v.2 = 30%Z) (videos (episodes_log text i eps)).
Proof.
  induction 1 as [|i w path info w1 elog rest w' Hpath Hrun _ IH].
  - exists []. cbn. repeat split; constructor.
  - destruct IH as (paths & Hps & Hsub & Hfps).
    exists (path :: paths). cbn [length seq episodes_log fst snd].
    split; [constructor; assumption|].
    apply run_episode_views in Hrun as (rs & _ & _ & _ & _ & Hv & _).
    cbn [fst snd] in Hv.
    unfold videos in *. rewrite omap_app. cbn [omap list_omap].
    rewrite Hv, map_app, Forall_app. unfold stored.
    destruct (path_given path) as [p|] eqn:Hp.
    2: { cbn. split; [apply sublist_cons, Hsub|split; [constructor|exact Hfps]]. }
    apply path_given_some in Hp as ->.
    destruct (imageio host).
    2: { cbn. split; [apply sublist_cons, Hsub|split; [constructor|exact Hfps]]. }
    destruct (bool_decide _).
    { cbn. split; [apply sublist_cons, Hsub|split; [constructor|exact Hfps]]. }
    cbn. split; [apply sublist_skip, Hsub|].
    split; [repeat constructor|exact Hfps].
Qed.

(** The videos a [main] that returns has stored are all at 30 frames per
    second, at most one per episode, and stored in the order of the episodes,
    each under [args.video_out.format(i)] for the number [i] of its episode;
    without [--render] the paths are all [None] and there is no video. *)
Theorem main_video_paths args w w' tr :
  main jax np_coerce cv2 host text repo args (w, []) = (Ok tt, (w', tr)) ->
  exists paths,
    Forall2 (fun i p => video_path text args i = Ok p)
      (seq 0 (Z.to_nat (args_episodes args))) paths
    /\ sublist (map (fun v => Some v.1.1) (videos tr)) paths
    /\ Forall (fun v => v.2 = 30%Z) (videos tr).
Proof.
  intros Hrun.
  apply main_ok in Hrun as (agent & eval_env & w0 & eps & _ & Heps & Hlen & ->).
  destruct (episodes_videos _ _ _ _ _ _ _ Heps) as (paths & Hps & Hsub & Hfps).
  exists paths. rewrite <- Hlen. split; [exact Hps|].
  unfold videos in *. cbn [omap list_omap]. rewrite omap_app. cbn [omap list_omap].
  rewrite app_nil_r. split; assumption.
Qed.

(** With rendering off an episode inside a longer run writes no render or
    file entry. *)
Lemma quiet_episode agent env record_path :
  emits (fun ev : event Key => is_render ev = false /\ is_file_write ev = false)
    (run_episode_from jax np_coerce cv2 host agent env false record_path
       default_max_steps default_img_hw).
Proof.
  intros [w tr0]. rewrite run_episode_inside. cbn [fst snd].
  eexists. split; [reflexivity|].
  destruct (run_episode_shape jax np_coerce cv2 host agent env false record_path
              default_max_steps default_img_hw w)
    as (r & d1 & d2 & -> & H1 & _ & Hoff).
  rewrite (Hoff (or_introl eq_refl)), app_nil_r.
  constructor; [split; reflexivity|].
  eapply Forall_impl; [exact H1|]. intros ev (_ & Hs & Hr).
  split.
  - destruct (is_render ev); [|reflexivity]. symmetry. apply Hr. reflexivity.
  - destruct ev; (discriminate || reflexivity).
Qed.

(** Without [--render], [main] never calls [env.render], creates no
    directory and writes no video, however it ends and whatever
    [--video_out] is. *)
Theorem main_without_render args w :
  args_render args = false ->
  Forall (fun ev => is_render ev = false /\ is_file_write ev = false)
    (main jax np_coerce cv2 host text repo args (w, [])).2.2.
Proof.
  intros Hoff.
  assert (Hloop : forall agent eval_env indices rets,
    emits (fun ev : event Key => is_render ev = false /\ is_file_write ev = false)
      (episodes_loop jax np_coerce cv2 host text args agent eval_env indices rets)).
  { intros agent eval_env indices.
    induction indices as [|i rest IH]; intros rets; cbn [episodes_loop].
    - apply emits_ret.
    - apply emits_bind; [apply emits_lift|]. intros path.
      apply emits_bind; [rewrite Hoff; apply quiet_episode|]. intros info.
      apply emits_bind; [apply emits_emit; split; reflexivity|]. intros _.
      apply IH. }
  assert (Hmain : emits (fun ev : event Key =>
                           is_render ev = false /\ is_file_write ev = false)
                    (main jax np_coerce cv2 host text repo args)).
  { unfold main.
    apply emits_bind.
    { eapply emits_weaken; [|apply setup_emits]. intros ev []. }
    intros ready.
    apply emits_bind; [apply emits_emit; split; reflexivity|]. intros _.
    apply emits_bind; [apply Hloop|]. intros rets.
    apply emits_emit. split; reflexivity. }
  destruct (Hmain (w, [])) as (d & -> & Hd). exact Hd.
Qed.

End MainRuns.


(** ** Stand-ins for the evaluation run *)

From stdpp Require Import pretty.

(** An environment whose second step fails. *)
Definition failing_env : Env nat := {|
  env_reset := fun _ => (Ok (PyArr joints), 0);
  env_step := fun _ n =>
    if n =? 1 then (Raise (Exc "RuntimeError"), n)
    else (Ok (StepResult (PyArr joints) 1 false false), S n);
  env_render := fun n => (Ok (PyArr small_image), n)
|}.

(** A host where [import imageio] failed. *)
Definition bare_host : Host nat := {|
  imageio := None;
  os_path_dirname := fun p => p;
  os_makedirs := fun _ n => (Ok tt, n)
|}.

(** Text functions for the examples: the number is appended to the
    template rather than put in its place, an empty template is refused, a
    float is shown by its sign. *)
Definition plain_text : Builtins := {|
  str_format := fun template i =>
    if bool_decide (template = "") then Raise (Exc "IndexError")
    else Ok (template +:+ "@" +:+ pretty i);
  format_3f := fun x => if (x <? 0)%float then "-" else "+";
  str_int := pretty;
  np_mean := fun rets =>
    (fold_right PrimFloat.add 0 rets / fold_right (fun _ n => n + 1) 0 rets)%float
|}.

(** A repository in which everything is at hand: the environment given for
    both roles, a dataset that is its own example batch, a configuration
    that names the one registered class, and a checkpoint loader that hands
    the agent back. *)
Definition desk_repo (env : Env nat) :
    Repo positive nat (gmap string pyval) (gmap string string) unit := {|
  environ_setdefault := fun _ _ w => w;
  make_env_and_datasets := fun _ _ _ w =>
    (Ok (env, env,
         {[ "observations" := PyArr (expand_leading joints);
            "actions" := PyArr (expand_leading joints) ]},
         ∅), w);
  has_sample := fun _ => false;
  ds_sample := fun d _ w => (Ok d, w);
  ds_item := fun d k =>
    match d !! k with Some v => Ok v | None => Raise (Exc "KeyError") end;
  get_config := fun w => (Ok {[ "agent_name" := "fql" ]}, w);
  cfg_item := fun c k =>
    match c !! k with Some v => Ok v | None => Raise (Exc "KeyError") end;
  agents := fun name =>
    if bool_decide (name = "fql") then Ok tt else Raise (Exc "KeyError");
  agent_create := fun _ _ _ _ _ w => (Ok still_agent, w);
  restore_agent := fun a _ _ w => (Ok a, w)
|}.

(** [main] on the stand-ins, started in world [0]. *)
Definition evaluate (env : Env nat) (args : Args) :
    res unit * (nat * list (event positive)) :=
  main tree_jax np_like None plain_host plain_text (desk_repo env) args (0, []).

(** Two episodes, rendered. *)
Definition filmed_args : Args := {|
  args_ckpt_dir := "exp/run";
  args_step := Some 1000%Z;
  args_env_name := "gym-aloha";
  args_aloha_task := "sim_transfer";
  args_episodes := 2;
  args_render := true;
  args_video_out := "videos/eval_episode_{:03d}.mp4";
  args_frame_stack := None
|}.


(** ** The further statements on concrete runs *)

(** The camera image, resized to two by two, is left alone by a second
    pass. *)
Lemma resize_top_idempotent_witness :
  _resize_top (Some black_resize) (2, 2)%Z
    (_resize_top (Some black_resize) (2, 2)%Z camera_obs)
  = _resize_top (Some black_resize) (2, 2)%Z camera_obs.
Proof.
  apply (resize_top_idempotent (Some black_resize) 2 2 camera_obs).
  intros resize [= <-]. exact black_resize_size.
Defined.

(** The joint positions of the camera observation, batched. *)
Lemma obs_to_batched_batch_of_one_witness :
  exists a, PyArr (NdArray Float32 [1; 2] [0; 0]%Z) = PyArr a
            /\ head (shape a) = Some 1.
Proof.
  apply (obs_to_batched_batch_of_one np_like camera_obs
           (PyDict {[ "agent_pos" := PyArr (NdArray Float32 [1; 2] [0; 0]%Z);
                      "pixels" := PyDict {[ "top" :=
                         PyArr (NdArray UInt8 [1; 1; 2; 3]
                                  [10; 20; 30; 40; 50; 60]%Z) ]} ]})).
  - vm_compute. reflexivity.
  - eapply leaf_dict; [apply lookup_insert_eq|]. apply leaf_here. reflexivity.
Defined.

(** Three steps with rendering off and a record path given. *)
Lemma no_render_no_video_witness :
  Forall (fun ev => is_render ev = false /\ is_storage ev = false)
    (play (timer_env 3 flat_pay) false (Some "videos/eval.mp4")
       default_max_steps).2.2.
Proof.
  apply (no_render_no_video tree_jax np_like None plain_host still_agent
           (timer_env 3 flat_pay) false (Some "videos/eval.mp4")
           default_max_steps default_img_hw 0).
  reflexivity.
Defined.

(** Three rendered steps on a host without the backend. *)
Lemma no_backend_no_video_witness :
  Forall (fun ev => is_storage ev = false)
    (run_episode tree_jax np_like None bare_host still_agent
       (timer_env 3 flat_pay) true (Some "videos/eval.mp4")
       default_max_steps default_img_hw 0).2.2.
Proof.
  apply (no_backend_no_video tree_jax np_like None bare_host still_agent
           (timer_env 3 flat_pay) true (Some "videos/eval.mp4")
           default_max_steps default_img_hw 0).
  left. reflexivity.
Defined.

(** The second step raises: it is the fifth and last call, and the call
    ends with its exception. *)
Lemma failure_is_final_witness :
  (play failing_env false None default_max_steps).1 = Raise (Exc "RuntimeError")
  /\ 5 = length (play failing_env false None default_max_steps).2.2.
Proof.
  apply (failure_is_final tree_jax np_like None plain_host still_agent
           failing_env false None default_max_steps default_img_hw 0 4
           (EvStep joints (Raise (Exc "RuntimeError"))) (Exc "RuntimeError")).
  - vm_compute. reflexivity.
  - reflexivity.
Defined.

(** Three steps: three queries, on the observation of the reset and those
    of the first two steps. *)
Lemma observations_are_threaded_witness :
  exists ob,
    head (play (timer_env 3 flat_pay) false None default_max_steps).2.2
    = Some (EvReset (Ok ob))
    /\ length (queries (play (timer_env 3 flat_pay) false None
                          default_max_steps).2.2)
       = length (actions (play (timer_env 3 flat_pay) false None
                            default_max_steps).2.2)
    /\ map Ok (queries (play (timer_env 3 flat_pay) false None
                          default_max_steps).2.2)
       = map (fun o => _obs_to_batched np_like (_resize_top None default_img_hw o))
           (take (length (queries (play (timer_env 3 flat_pay) false None
                                     default_max_steps).2.2))
              (ob :: map next_obs
                       (step_outs (play (timer_env 3 flat_pay) false None
                                     default_max_steps).2.2)))
    /\ map Ok (actions (play (timer_env 3 flat_pay) false None
                          default_max_steps).2.2)
       = map (fun o => res_bind (asarray np_like o) index0)
           (answers (play (timer_env 3 flat_pay) false None
                       default_max_steps).2.2).
Proof.
  apply (observations_are_threaded tree_jax np_like None plain_host still_agent
           (timer_env 3 flat_pay) false None default_max_steps default_img_hw 0
           {| return_ := 3; length_ := 3 |}
           (play (timer_env 3 flat_pay) false None default_max_steps).2.1).
  vm_compute. reflexivity.
Defined.


(** The second step of the first episode raises: no second episode and no
    summary follow. *)
Lemma main_failure_is_final_witness :
  (evaluate failing_env (default_args "exp/run")).1 = Raise (Exc "RuntimeError")
  /\ 6 = length (evaluate failing_env (default_args "exp/run")).2.2.
Proof.
  apply (main_failure_is_final tree_jax np_like None plain_host plain_text
           (desk_repo failing_env) (default_args "exp/run") 0 5
           (EvStep joints (Raise (Exc "RuntimeError"))) (Exc "RuntimeError")).
  - vm_compute. reflexivity.
  - reflexivity.
Defined.

(** The default five episodes, of three steps each: five calls of
    [run_episode] that each returned a return of three, and the summary over
    these five returns. *)
Lemma main_runs_every_episode_witness :
  (evaluate (timer_env 3 flat_pay) (default_args "exp/run")).1 = Ok tt
  /\ exists eps : list (EpisodeResult * list (event positive)),
       episodes_run tree_jax np_like None plain_host plain_text
         (default_args "exp/run") still_agent (timer_env 3 flat_pay) 0 0 eps
         (evaluate (timer_env 3 flat_pay) (default_args "exp/run")).2.1
       /\ length eps = 5
       /\ (evaluate (timer_env 3 flat_pay) (default_args "exp/run")).2.2
          = EvPrint (restore_notice plain_text (default_args "exp/run"))
            :: episodes_log plain_text 0 eps
            ++ [EvPrint (summary_line plain_text
                           (map (fun ep => return_ ep.1) eps))]
       /\ length (List.filter is_reset
                    (evaluate (timer_env 3 flat_pay)
                       (default_args "exp/run")).2.2) = 5.
Proof.
  split; [vm_compute; reflexivity|].
  destruct (main_runs_every_episode tree_jax np_like None plain_host plain_text
              (desk_repo (timer_env 3 flat_pay)) (default_args "exp/run") 0
              (evaluate (timer_env 3 flat_pay) (default_args "exp/run")).2.1
              (evaluate (timer_env 3 flat_pay) (default_args "exp/run")).2.2)
    as (agent & eval_env & w0 & eps & Hsetup & Heps & Hlen & Htr & Hresets & _).
  - vm_compute. reflexivity.
  - assert (Hready : setup (desk_repo (timer_env 3 flat_pay))
                       (default_args "exp/run") (0, [])
                     = (Ok (still_agent, timer_env 3 flat_pay),
                        (0, @nil (event positive))))
      by reflexivity.
    rewrite Hready in Hsetup. injection Hsetup as <- <- <-.
    exists eps. split; [exact Heps|]. split; [exact Hlen|].
    split; [exact Htr|]. rewrite Hresets. exact Hlen.
Defined.

(** Five episodes of three steps: the first three seeds of the stream,
    five times over. *)
Lemma main_repeats_seeds_witness :
  exists lens : list nat,
    length lens = 5
    /\ Forall (fun n => 1 <= n) lens
    /\ seeds (evaluate (timer_env 3 flat_pay) (default_args "exp/run")).2.2
       = seed_blocks tree_jax lens.
Proof.
  apply (main_repeats_seeds tree_jax np_like None plain_host plain_text
           (desk_repo (timer_env 3 flat_pay)) (default_args "exp/run") 0
           (evaluate (timer_env 3 flat_pay) (default_args "exp/run")).2.1).
  vm_compute. reflexivity.
Defined.

(** Two rendered episodes: two videos, under the paths made from [0] and
    [1]. *)
Lemma main_video_paths_witness :
  exists paths,
    Forall2 (fun i p => video_path plain_text filmed_args i = Ok p) (seq 0 2) paths
    /\ sublist (map (fun v => Some v.1.1)
                  (videos (evaluate (timer_env 3 flat_pay) filmed_args).2.2))
         paths
    /\ Forall (fun v => v.2 = 30%Z)
         (videos (evaluate (timer_env 3 flat_pay) filmed_args).2.2).
Proof.
  apply (main_video_paths tree_jax np_like None plain_host plain_text
           (desk_repo (timer_env 3 flat_pay)) filmed_args 0
           (evaluate (timer_env 3 flat_pay) filmed_args).2.1).
  vm_compute. reflexivity.
Defined.

(** The default arguments leave rendering off. *)
Lemma main_without_render_witness :
  Forall (fun ev => is_render ev = false /\ is_file_write ev = false)
    (evaluate (timer_env 3 flat_pay) (default_args "exp/run")).2.2.
Proof.
  apply (main_without_render tree_jax np_like None plain_host plain_text
           (desk_repo (timer_env 3 flat_pay)) (default_args "exp/run") 0).
  reflexivity.
Defined.
